(** * Brigade v2 API server: jobs store, reserved principals, request principal

    A shallow embedding of
      - [v2/apiserver/internal/core/mongodb/jobs_store.go]
      - [v2/apiserver/internal/system/authn/named_principals.go]
      - [v2/apiserver/internal/authx/principals.go]
    together with the document-store behaviour those files rely on
    (the driver's [UpdateOne] with an equality filter and a [$set] update). *)

From Stdlib Require Import List String Ascii Bool ZArith Lia Arith.
Import ListNotations.

Set Warnings "-register-all".
Local Open Scope list_scope.
Local Open Scope string_scope.

(* ================================================================== *)
(** ** Errors of the [meta] package *)

(** Go's [error] interface value is [option error]: [None] is [nil].
    [ErrNotFound], [ErrConflict] and [ErrAuthorization] are the typed errors
    of package [meta]; [Wrapf] is [errors.Wrapf cause format args] of
    [github.com/pkg/errors] with the format and its arguments kept apart;
    [DriverError] is an error produced by the document-store driver. *)
Inductive error : Type :=
| ErrNotFound (Type_ ID : string)
| ErrConflict (Type_ ID Reason : string)
| ErrAuthorization
| DriverError (msg : string)
| Wrapf (cause : error) (format : string) (args : list string).

Definition isNotFound (e : option error) : bool :=
  match e with Some (ErrNotFound _ _) => true | _ => false end.

Definition isConflict (e : option error) : bool :=
  match e with Some (ErrConflict _ _ _) => true | _ => false end.

(* ================================================================== *)
(** ** BSON values and documents *)

(** The fragment of BSON that Event and User documents use on the paths the
    stores touch: scalars and embedded documents.  A document keeps its
    fields in order, as the document store does. *)
Inductive bson : Type :=
| BNull
| BBool (b : bool)
| BString (s : string)
| BInt (z : Z)
| BDoc (fields : list (string * bson)).

Definition document : Type := list (string * bson).

Fixpoint bson_eqb (a b : bson) {struct a} : bool :=
  match a, b with
  | BNull, BNull => true
  | BBool x, BBool y => Bool.eqb x y
  | BString x, BString y => String.eqb x y
  | BInt x, BInt y => Z.eqb x y
  | BDoc xs, BDoc ys =>
      (fix go (xs ys : list (string * bson)) {struct xs} : bool :=
         match xs, ys with
         | [], [] => true
         | (k, v) :: xs', (k', v') :: ys' =>
             String.eqb k k' && bson_eqb v v' && go xs' ys'
         | _, _ => false
         end) xs ys
  | _, _ => false
  end.

Fixpoint getField (k : string) (d : document) : option bson :=
  match d with
  | [] => None
  | (k', v) :: d' => if String.eqb k k' then Some v else getField k d'
  end.

(** Writing a field replaces it in place when present and appends it
    otherwise. *)
Fixpoint setField (k : string) (v : bson) (d : document) : document :=
  match d with
  | [] => [(k, v)]
  | (k', v') :: d' =>
      if String.eqb k k' then (k, v) :: d' else (k', v') :: setField k v d'
  end.

(* ------------------------------------------------------------------ *)
(** *** Dotted paths *)

(** The document store splits an update path at every ['.']. *)
Fixpoint splitDots (s : string) : list string :=
  match s with
  | EmptyString => [EmptyString]
  | String c rest =>
      if Ascii.eqb c "." then EmptyString :: splitDots rest
      else match splitDots rest with
           | [] => [String c EmptyString]
           | seg :: segs => String c seg :: segs
           end
  end.

Fixpoint getPath (path : list string) (d : document) : option bson :=
  match path with
  | [] => None
  | k :: rest =>
      match rest with
      | [] => getField k d
      | _ :: _ =>
          match getField k d with
          | Some (BDoc sub) => getPath rest sub
          | _ => None
          end
      end
  end.

(** [$set] along a dotted path: embedded documents are created as needed;
    an empty field name, or a step through a value that is not a document,
    is a write error ([None]). *)
Fixpoint setPath (path : list string) (v : bson) (d : document)
  : option document :=
  match path with
  | [] => None
  | k :: rest =>
      if String.eqb k "" then None
      else
        match rest with
        | [] => Some (setField k v d)
        | _ :: _ =>
            match getField k d with
            | None =>
                match setPath rest v [] with
                | Some sub' => Some (setField k (BDoc sub') d)
                | None => None
                end
            | Some (BDoc sub) =>
                match setPath rest v sub with
                | Some sub' => Some (setField k (BDoc sub') d)
                | None => None
                end
            | Some _ => None
            end
        end
  end.

(* ------------------------------------------------------------------ *)
(** *** Filters and updates *)

(** A filter document is a conjunction of field equalities. *)
Definition fieldMatches (d : document) (cond : string * bson) : bool :=
  match getField (fst cond) d with
  | Some v => bson_eqb v (snd cond)
  | None => false
  end.

Definition matches (filter d : document) : bool :=
  forallb (fieldMatches d) filter.

(** The assignments of one [$set] operator, applied left to right. *)
Fixpoint applySet (assignments : document) (d : document) : option document :=
  match assignments with
  | [] => Some d
  | (path, v) :: rest =>
      match setPath (splitDots path) v d with
      | Some d' => applySet rest d'
      | None => None
      end
  end.

(** An update document; [$set] is the only operator the stores use. *)
Fixpoint applyUpdate (update : document) (d : document) : option document :=
  match update with
  | [] => Some d
  | (op, BDoc assignments) :: rest =>
      if String.eqb op "$set" then
        match applySet assignments d with
        | Some d' => applyUpdate rest d'
        | None => None
        end
      else None
  | _ :: _ => None
  end.

(* ================================================================== *)
(** ** The [mongodb.Collection] interface *)

(** [mongo.UpdateResult]; the stores read [MatchedCount] only. *)
Record UpdateResult : Type := { MatchedCount : Z }.

(** The one method of [mongodb.Collection] the stores below call.  The
    collection is threaded explicitly; the returned pair of result and error is
    a sum because the stores read the result only when the error is nil. *)
Class Collection (C : Type) : Type := {
  UpdateOne : C -> document -> document -> C * (UpdateResult + error)
}.

(** The collection as a list of documents. *)
Definition memCollection : Type := list document.

(** What is checked of an update before any document is looked at: the
    driver refuses a key that holds a NUL byte, and the server refuses an
    operator other than [$set] and an update path with an empty field
    name. *)
Fixpoint hasNul (s : string) : bool :=
  match s with
  | EmptyString => false
  | String c rest => Ascii.eqb c "000" || hasNul rest
  end.

Definition validPath (path : string) : bool :=
  negb (hasNul path)
  && forallb (fun k => negb (String.eqb k "")) (splitDots path).

Definition validOperator (opArg : string * bson) : bool :=
  match snd opArg with
  | BDoc assignments =>
      String.eqb (fst opArg) "$set"
      && forallb (fun kv => validPath (fst kv)) assignments
  | _ => false
  end.

Definition validUpdate (update : document) : bool :=
  forallb validOperator update.

(** The first document the filter matches is updated. *)
Fixpoint memUpdateFirst (c : memCollection) (filter update : document)
  : memCollection * (UpdateResult + error) :=
  match c with
  | [] => ([], inl {| MatchedCount := 0 |})
  | d :: c' =>
      if matches filter d then
        match applyUpdate update d with
        | Some d' => (d' :: c', inl {| MatchedCount := 1 |})
        | None => (d :: c', inr (DriverError "write exception"))
        end
      else
        let '(c'', r) := memUpdateFirst c' filter update in (d :: c'', r)
  end.

(** [UpdateOne]: an update that is refused is an error whatever is stored;
    otherwise the first document the filter matches is updated. *)
Definition memUpdateOne (c : memCollection) (filter update : document)
  : memCollection * (UpdateResult + error) :=
  if validUpdate update then memUpdateFirst c filter update
  else (c, inr (DriverError "write exception")).

#[export] Instance memCollection_Collection : Collection memCollection :=
  {| UpdateOne := memUpdateOne |}.

(** The test double of the repository's store tests: [UpdateOneFn] decides
    the outcome and nothing is stored. *)
Record mockCollection : Type := {
  UpdateOneFn : document -> document -> UpdateResult + error
}.

#[export] Instance mockCollection_Collection : Collection mockCollection :=
  {| UpdateOne := fun m filter update => (m, UpdateOneFn m filter update) |}.

(* ================================================================== *)
(** ** Jobs: phases, status, marshalling *)

(** Phases of Workers and Jobs. *)
Inductive Phase : Type :=
| PENDING | STARTING | RUNNING
| SUCCEEDED | FAILED | ABORTED | TIMED_OUT | SCHEDULING_FAILED.

Definition Phase_eqb (a b : Phase) : bool :=
  match a, b with
  | PENDING, PENDING | STARTING, STARTING | RUNNING, RUNNING
  | SUCCEEDED, SUCCEEDED | FAILED, FAILED | ABORTED, ABORTED
  | TIMED_OUT, TIMED_OUT | SCHEDULING_FAILED, SCHEDULING_FAILED => true
  | _, _ => false
  end.

Definition phaseString (p : Phase) : string :=
  match p with
  | PENDING => "PENDING" | STARTING => "STARTING" | RUNNING => "RUNNING"
  | SUCCEEDED => "SUCCEEDED" | FAILED => "FAILED" | ABORTED => "ABORTED"
  | TIMED_OUT => "TIMED_OUT" | SCHEDULING_FAILED => "SCHEDULING_FAILED"
  end.

Definition phaseOfString (s : string) : option Phase :=
  if String.eqb s "PENDING" then Some PENDING
  else if String.eqb s "STARTING" then Some STARTING
  else if String.eqb s "RUNNING" then Some RUNNING
  else if String.eqb s "SUCCEEDED" then Some SUCCEEDED
  else if String.eqb s "FAILED" then Some FAILED
  else if String.eqb s "ABORTED" then Some ABORTED
  else if String.eqb s "TIMED_OUT" then Some TIMED_OUT
  else if String.eqb s "SCHEDULING_FAILED" then Some SCHEDULING_FAILED
  else None.

(** Modelled from the spec: the declarations of [core.JobStatus], [core.Job]
    and its spec are not among the sources; the data model gives a Job a
    [spec] (primary container with an image) and
    [status{phase, started, ended}]. *)
Record JobStatus : Type := {
  Phase_ : Phase;
  Started : option Z;
  Ended : option Z
}.

Record JobSpec : Type := { PrimaryContainerImage : string }.

Record Job : Type := { Spec : JobSpec; Status : JobStatus }.

Definition marshalTime (t : option Z) : bson :=
  match t with Some z => BInt z | None => BNull end.

Definition marshalJobStatus (s : JobStatus) : bson :=
  BDoc [("phase", BString (phaseString (Phase_ s)));
        ("started", marshalTime (Started s));
        ("ended", marshalTime (Ended s))].

Definition marshalJobSpec (s : JobSpec) : bson :=
  BDoc [("primaryContainer",
         BDoc [("image", BString (PrimaryContainerImage s))])].

Definition marshalJob (j : Job) : bson :=
  BDoc [("spec", marshalJobSpec (Spec j));
        ("status", marshalJobStatus (Status j))].

Definition unmarshalTime (b : bson) : option (option Z) :=
  match b with
  | BInt z => Some (Some z)
  | BNull => Some None
  | _ => None
  end.

Definition unmarshalJobStatus (b : bson) : option JobStatus :=
  match b with
  | BDoc d =>
      match getField "phase" d, getField "started" d, getField "ended" d with
      | Some (BString p), Some s, Some e =>
          match phaseOfString p, unmarshalTime s, unmarshalTime e with
          | Some p', Some s', Some e' =>
              Some {| Phase_ := p'; Started := s'; Ended := e' |}
          | _, _, _ => None
          end
      | _, _, _ => None
      end
  | _ => None
  end.

(** The state-machine graph of the Worker and Job phases (§4.6 of the
    specification), as a table. *)
Definition transitionAllowed (from to : Phase) : bool :=
  match from, to with
  | PENDING, STARTING | PENDING, ABORTED
  | STARTING, RUNNING | STARTING, SCHEDULING_FAILED
  | RUNNING, SUCCEEDED | RUNNING, FAILED | RUNNING, ABORTED
  | RUNNING, TIMED_OUT => true
  | _, _ => false
  end.

Definition terminal (p : Phase) : bool :=
  match p with
  | SUCCEEDED | FAILED | ABORTED | TIMED_OUT | SCHEDULING_FAILED => true
  | _ => false
  end.

(** Job names are drawn from [[a-z0-9-]{1,63}]. *)
Definition jobNameChar (c : ascii) : bool :=
  let n := nat_of_ascii c in
  (((97 <=? n) && (n <=? 122)) || ((48 <=? n) && (n <=? 57)) || (n =? 45))%nat.

Fixpoint allChars (p : ascii -> bool) (s : string) : bool :=
  match s with
  | EmptyString => true
  | String c rest => p c && allChars p rest
  end.

Definition validJobName (s : string) : bool :=
  allChars jobNameChar s
  && (1 <=? String.length s)%nat && (String.length s <=? 63)%nat.

(* ================================================================== *)
(** ** [jobsStore] *)

Section JobsStore.

Context {C : Type} {HC : Collection C}.

(** [jobsStore] holds the [events] collection. *)
Record jobsStore : Type := { collection : C }.

Definition Create (j : jobsStore) (eventID jobName : string) (job : Job)
  : jobsStore * option error :=
  let '(c, r) :=
    UpdateOne (collection j)
      [("id", BString eventID)]
      [("$set", BDoc [("worker.jobs." ++ jobName, marshalJob job)])] in
  match r with
  | inr err =>
      ({| collection := c |},
       Some (Wrapf err "error updating spec of event %q job %q"
                [eventID; jobName]))
  | inl res =>
      if (MatchedCount res =? 0)%Z then
        ({| collection := c |}, Some (ErrNotFound "Event" eventID))
      else ({| collection := c |}, None)
  end.

Definition UpdateStatus (j : jobsStore) (eventID jobName : string)
  (status : JobStatus) : jobsStore * option error :=
  let '(c, r) :=
    UpdateOne (collection j)
      [("id", BString eventID)]
      [("$set",
        BDoc [("worker.jobs." ++ jobName ++ ".status",
               marshalJobStatus status)])] in
  match r with
  | inr err =>
      ({| collection := c |},
       Some (Wrapf err "error updating status of event %q worker job %q"
                [eventID; jobName]))
  | inl res =>
      if (MatchedCount res =? 0)%Z then
        ({| collection := c |}, Some (ErrNotFound "Job" eventID))
      else ({| collection := c |}, None)
  end.

End JobsStore.

Arguments jobsStore C : clear implicits.

(** The stored status of a Job, read back from the [events] collection. *)
Definition findEvent (c : memCollection) (eventID : string) : option document :=
  find (matches [("id", BString eventID)]) c.

Definition storedJob (c : memCollection) (eventID jobName : string)
  : option bson :=
  match findEvent c eventID with
  | Some d => getPath ["worker"; "jobs"; jobName] d
  | None => None
  end.

Definition storedJobStatus (c : memCollection) (eventID jobName : string)
  : option bson :=
  match findEvent c eventID with
  | Some d => getPath ["worker"; "jobs"; jobName; "status"] d
  | None => None
  end.

Definition storedWorkerPhase (c : memCollection) (eventID : string)
  : option bson :=
  match findEvent c eventID with
  | Some d => getPath ["worker"; "status"; "phase"] d
  | None => None
  end.

Definition storedJobs (c : memCollection) (eventID : string) : option bson :=
  match findEvent c eventID with
  | Some d => getPath ["worker"; "jobs"] d
  | None => None
  end.

(** An Event document with its one Worker sub-document. *)
Definition eventDoc (id : string) (workerPhase : Phase)
  (jobs : list (string * Job)) : document :=
  [("id", BString id);
   ("worker",
    BDoc [("status",
           BDoc [("phase", BString (phaseString workerPhase))]);
          ("jobs",
           BDoc (map (fun nj => (fst nj, marshalJob (snd nj))) jobs))])].

(* ================================================================== *)
(** ** [usersStore]: locking and unlocking *)

Module UsersStore.
Section UsersStore.

Context {C : Type} {HC : Collection C}.

Record usersStore : Type := { collection : C }.

(** Modelled from the spec: [usersStore.Lock] is not among the sources,
    only its tests are.  A User has a [locked] flag that an admin sets; the
    tests fix the outcome for each answer of [UpdateOne]: a driver error is
    wrapped as "error updating user", [MatchedCount = 0] is
    [ErrNotFound] with Type "User" and the given ID, anything else is
    success. *)
Definition Lock (u : usersStore) (id : string) : usersStore * option error :=
  let '(c, r) :=
    UpdateOne (collection u)
      [("id", BString id)]
      [("$set", BDoc [("locked", BBool true)])] in
  match r with
  | inr err =>
      ({| collection := c |}, Some (Wrapf err "error updating user %q" [id]))
  | inl res =>
      if (MatchedCount res =? 0)%Z then
        ({| collection := c |}, Some (ErrNotFound "User" id))
      else ({| collection := c |}, None)
  end.

(** Modelled from the spec: [usersStore.Unlock] is not among the sources,
    only its tests are; it mirrors [Lock] and clears the [locked] flag. *)
Definition Unlock (u : usersStore) (id : string)
  : usersStore * option error :=
  let '(c, r) :=
    UpdateOne (collection u)
      [("id", BString id)]
      [("$set", BDoc [("locked", BBool false)])] in
  match r with
  | inr err =>
      ({| collection := c |}, Some (Wrapf err "error updating user %q" [id]))
  | inl res =>
      if (MatchedCount res =? 0)%Z then
        ({| collection := c |}, Some (ErrNotFound "User" id))
      else ({| collection := c |}, None)
  end.

End UsersStore.
Arguments usersStore C : clear implicits.
End UsersStore.

(* ================================================================== *)
(** ** Roles and the reserved principals *)

Inductive RoleName : Type :=
| ADMIN | READER | EVENT_CREATOR | PROJECT_ADMIN | PROJECT_CREATOR
| PROJECT_DEVELOPER | PROJECT_USER | SCHEDULER | OBSERVER | WORKER.

(** Modelled from the spec: the declaration of [libAuthz.Role] and the role
    constructors of packages [system] and [core] are not among the sources.
    A role is a pair [(name, scope)]; the scope of a role that takes none is
    the empty string, and [RoleScopeGlobal] is ["*"]. *)
Record Role : Type := { Name : RoleName; Scope : string }.

Definition RoleScopeGlobal : string := "*".

Definition RoleAdmin : Role := {| Name := ADMIN; Scope := "" |}.
Definition RoleReader : Role := {| Name := READER; Scope := "" |}.
Definition RoleEventCreator (eventSource : string) : Role :=
  {| Name := EVENT_CREATOR; Scope := eventSource |}.
Definition RoleProjectAdmin (projectID : string) : Role :=
  {| Name := PROJECT_ADMIN; Scope := projectID |}.
Definition RoleProjectCreator : Role :=
  {| Name := PROJECT_CREATOR; Scope := "" |}.
Definition RoleProjectDeveloper (projectID : string) : Role :=
  {| Name := PROJECT_DEVELOPER; Scope := projectID |}.
Definition RoleProjectUser (projectID : string) : Role :=
  {| Name := PROJECT_USER; Scope := projectID |}.
Definition RoleScheduler : Role := {| Name := SCHEDULER; Scope := "" |}.
Definition RoleObserver : Role := {| Name := OBSERVER; Scope := "" |}.
Definition RoleWorker (eventID : string) : Role :=
  {| Name := WORKER; Scope := eventID |}.

(** The [Principal] interface: anything with a [Roles()] method. *)
Class Principal (P : Type) : Type := { Roles : P -> list Role }.

Inductive rootPrincipal : Type := mkRootPrincipal.
Inductive schedulerPrincipal : Type := mkSchedulerPrincipal.
Inductive observerPrincipal : Type := mkObserverPrincipal.
Record workerPrincipal : Type := { eventID : string }.

#[export] Instance rootPrincipal_Principal : Principal rootPrincipal :=
  {| Roles := fun _ =>
       [RoleAdmin;
        RoleReader;
        RoleEventCreator RoleScopeGlobal;
        RoleProjectAdmin RoleScopeGlobal;
        RoleProjectCreator;
        RoleProjectDeveloper RoleScopeGlobal;
        RoleProjectUser RoleScopeGlobal] |}.

#[export] Instance schedulerPrincipal_Principal
  : Principal schedulerPrincipal :=
  {| Roles := fun _ => [RoleReader; RoleScheduler] |}.

#[export] Instance observerPrincipal_Principal : Principal observerPrincipal :=
  {| Roles := fun _ => [RoleReader; RoleObserver] |}.

#[export] Instance workerPrincipal_Principal : Principal workerPrincipal :=
  {| Roles := fun w => [RoleReader; RoleWorker (eventID w)] |}.

(** The singletons of package [authn] and the [worker] constructor. *)
Definition root : rootPrincipal := mkRootPrincipal.
Definition scheduler : schedulerPrincipal := mkSchedulerPrincipal.
Definition observer : observerPrincipal := mkObserverPrincipal.
Definition worker (eventID : string) : workerPrincipal :=
  {| eventID := eventID |}.

(** "Holds only role [r]": every role of the principal is [r]. *)
Definition holdsOnly {P : Type} `{Principal P} (p : P) (r : Role) : Prop :=
  forall r', In r' (Roles p) -> r' = r.

(* ================================================================== *)
(** ** The principal on the request context *)

(** What a Go call does: it returns or it panics. *)
Inductive result (A : Type) : Type :=
| Returns (a : A)
| Panics (msg : string).

Arguments Returns {A} a.
Arguments Panics {A} msg.

Definition panicked {A : Type} (r : result A) : bool :=
  match r with Panics _ => true | Returns _ => false end.

(** Keys of context values.  [principalContextKey] is the unexported empty
    struct of package [authx]; every other key is some other package's. *)
Inductive ctxKey : Type :=
| principalContextKey
| otherKey (name : string).

Definition ctxKey_eqb (a b : ctxKey) : bool :=
  match a, b with
  | principalContextKey, principalContextKey => true
  | otherKey x, otherKey y => String.eqb x y
  | _, _ => false
  end.

Section PrincipalContext.

(** The concrete types that implement [Principal]. *)
Variable P : Type.

(** A value of interface type [Principal]: nil or an implementation. *)
Definition PrincipalValue : Type := option P.

(** A value of the empty interface, as [ctx.Value] returns it. *)
Inductive any : Type :=
| anyNil
| anyPrincipal (p : P)
| anyOther (s : string).

(** Converting an interface value to the empty interface keeps nil nil. *)
Definition toAny (p : PrincipalValue) : any :=
  match p with
  | Some x => anyPrincipal x
  | None => anyNil
  end.

(** Contexts built by package [context]: the background context, values
    attached by [WithValue], and cancellation or deadline wrappers, which
    hand [Value] to their parent. *)
Inductive Ctx : Type :=
| Background
| cancelCtx (parent : Ctx)
| valueCtx (parent : Ctx) (key : ctxKey) (val : any).

Definition WithValue (parent : Ctx) (key : ctxKey) (val : any) : Ctx :=
  valueCtx parent key val.

Fixpoint Value (ctx : Ctx) (key : ctxKey) : any :=
  match ctx with
  | Background => anyNil
  | cancelCtx parent => Value parent key
  | valueCtx parent k v => if ctxKey_eqb k key then v else Value parent key
  end.

(** The unchecked type assertion [v.(Principal)]. *)
Definition assertPrincipal (v : any) : result PrincipalValue :=
  match v with
  | anyPrincipal x => Returns (Some x)
  | anyNil =>
      Panics "interface conversion: interface is nil, not authx.Principal"
  | anyOther _ =>
      Panics "interface conversion: value is not authx.Principal"
  end.

Definition ContextWithPrincipal (ctx : Ctx) (principal : PrincipalValue)
  : Ctx :=
  WithValue ctx principalContextKey (toAny principal).

Definition PrincipalFromContext (ctx : Ctx) : result PrincipalValue :=
  assertPrincipal (Value ctx principalContextKey).

(** Whether some [valueCtx] of the chain carries the principal key. *)
Fixpoint augmented (ctx : Ctx) : bool :=
  match ctx with
  | Background => false
  | cancelCtx parent => augmented parent
  | valueCtx parent k _ =>
      ctxKey_eqb k principalContextKey || augmented parent
  end.

End PrincipalContext.

Arguments anyNil {P}.
Arguments anyPrincipal {P} p.
Arguments anyOther {P} s.
Arguments Background {P}.
Arguments cancelCtx {P} parent.
Arguments valueCtx {P} parent key val.
Arguments WithValue {P} parent key val.
Arguments Value {P} ctx key.
Arguments toAny {P} p.
Arguments assertPrincipal {P} v.
Arguments ContextWithPrincipal {P} ctx principal.
Arguments PrincipalFromContext {P} ctx.
Arguments augmented {P} ctx.

(* ================================================================== *)
(** ** The role-assignments service *)

(** [PrincipalType] and its two constants, from package [authx]. *)
Definition PrincipalType : Type := string.
Definition PrincipalTypeServiceAccount : PrincipalType := "SERVICE_ACCOUNT".
Definition PrincipalTypeUser : PrincipalType := "USER".

Record PrincipalReference : Type := {
  PrincipalReference_Type : PrincipalType;
  PrincipalReference_ID : string
}.

Record RoleAssignment : Type := {
  RoleAssignment_Role : Role;
  RoleAssignment_Principal : PrincipalReference
}.

Record User : Type := { User_ID : string }.
Record ServiceAccount : Type := { ServiceAccount_ID : string }.

(** What a service operation does, in order: the authorization check, and
    calls on the three stores behind the service. *)
Inductive Access : Type :=
| AuthorizeCheck (roles : list Role)
| UsersStoreGet (id : string)
| ServiceAccountsStoreGet (id : string)
| RoleAssignmentsStoreGrant (ra : RoleAssignment)
| RoleAssignmentsStoreList
| RoleAssignmentsStoreRevoke (ra : RoleAssignment).

(** The mock stores of the service's tests: each method is a function field. *)
Record MockUsersStore : Type := {
  MockUsersStore_GetFn : string -> User + error
}.

Record MockServiceAccountStore : Type := {
  MockServiceAccountStore_GetFn : string -> ServiceAccount + error
}.

Record MockRoleAssignmentsStore : Type := {
  GrantFn : RoleAssignment -> option error;
  ListFn : list RoleAssignment + error;
  RevokeFn : RoleAssignment -> option error
}.

Definition isStoreAccess (a : Access) : bool :=
  match a with AuthorizeCheck _ => false | _ => true end.

(** A service operation threads the log of what it did and may panic. *)
Definition Op (A : Type) : Type :=
  list Access -> list Access * result A.

Definition ret {A : Type} (a : A) : Op A := fun log => (log, Returns a).

Definition bind {A B : Type} (m : Op A) (k : A -> Op B) : Op B :=
  fun log =>
    match m log with
    | (log', Returns a) => k a log'
    | (log', Panics msg) => (log', Panics msg)
    end.

Definition panic {A : Type} (msg : string) : Op A :=
  fun log => (log, Panics msg).

Definition access (a : Access) : Op unit :=
  fun log => ((log ++ [a])%list, Returns tt).

Declare Scope op_scope.
Delimit Scope op_scope with op.
Notation "x <- m ;; k" := (bind m (fun x => k))
  (at level 61, m at next level, right associativity) : op_scope.
Notation "m ;;; k" := (bind m (fun _ => k))
  (at level 61, right associativity) : op_scope.

(** A method call through a store field; a nil store is a nil dereference. *)
Definition callStore {S A : Type} (store : option S) (a : Access)
  (method : S -> A) : Op A :=
  match store with
  | None => panic "invalid memory address or nil pointer dereference"
  | Some s => (access a ;;; ret (method s))%op
  end.

Section RoleAssignmentsService.

(** The request context, which the authorization check reads. *)
Variable ctxT : Type.

Definition AuthorizeFn : Type := ctxT -> list Role -> option error.

(** The two test doubles of the authorization check. *)
Definition AlwaysAuthorize : AuthorizeFn := fun _ _ => None.
Definition NeverAuthorize : AuthorizeFn := fun _ _ => Some ErrAuthorization.

Record roleAssignmentsService : Type := {
  authorize : AuthorizeFn;
  usersStore : option MockUsersStore;
  serviceAccountsStore : option MockServiceAccountStore;
  roleAssignmentsStore : option MockRoleAssignmentsStore
}.

(** Modelled from the spec: the principal named by a role assignment must
    exist; the service's tests fix the store consulted for each principal
    type and the wrapping of its error. *)
Definition checkPrincipal (r : roleAssignmentsService)
  (ref : PrincipalReference) : Op (option (option error)) :=
  (if String.eqb (PrincipalReference_Type ref) PrincipalTypeUser then
     got <- callStore (usersStore r)
              (UsersStoreGet (PrincipalReference_ID ref))
              (fun s => MockUsersStore_GetFn s (PrincipalReference_ID ref)) ;;
     match got with
     | inr err =>
         ret (Some (Some (Wrapf err "error retrieving user %q from store"
                            [PrincipalReference_ID ref])))
     | inl _ => ret None
     end
   else if String.eqb (PrincipalReference_Type ref)
             PrincipalTypeServiceAccount then
     got <- callStore (serviceAccountsStore r)
              (ServiceAccountsStoreGet (PrincipalReference_ID ref))
              (fun s =>
                 MockServiceAccountStore_GetFn s (PrincipalReference_ID ref)) ;;
     match got with
     | inr err =>
         ret (Some (Some (Wrapf err
                            "error retrieving service account %q from store"
                            [PrincipalReference_ID ref])))
     | inl _ => ret None
     end
   else ret (Some None))%op.

(** Modelled from the spec: [roleAssignmentsService.Grant] is not among the
    sources, only its tests are.  Every domain operation begins with the
    authorization check and fails with its error; then the principal is
    looked up and the assignment is handed to the role-assignments store,
    whose error is wrapped as "error granting role". *)
Definition Grant (r : roleAssignmentsService) (ctx : ctxT)
  (roleAssignment : RoleAssignment) : Op (option error) :=
  (access (AuthorizeCheck [RoleAdmin]) ;;;
   match authorize r ctx [RoleAdmin] with
   | Some err => ret (Some err)
   | None =>
      (early <- checkPrincipal r (RoleAssignment_Principal roleAssignment) ;;
       match early with
       | Some e => ret e
       | None =>
           res <- callStore (roleAssignmentsStore r)
                    (RoleAssignmentsStoreGrant roleAssignment)
                    (fun s => GrantFn s roleAssignment) ;;
           match res with
           | Some err =>
               ret (Some (Wrapf err "error granting role"
                            [PrincipalReference_ID
                               (RoleAssignment_Principal roleAssignment)]))
           | None => ret None
           end
       end)
   end)%op.

(** Modelled from the spec: [roleAssignmentsService.List] is not among the
    sources; it begins with the authorization check and then reads the
    role-assignments store, whose error is wrapped as "error retrieving
    role assignments from store". *)
Definition List_ (r : roleAssignmentsService) (ctx : ctxT)
  : Op (list RoleAssignment * option error) :=
  (access (AuthorizeCheck [RoleReader]) ;;;
   match authorize r ctx [RoleReader] with
   | Some err => ret ([], Some err)
   | None =>
      (res <- callStore (roleAssignmentsStore r) RoleAssignmentsStoreList
                ListFn ;;
       match res with
       | inr err =>
           ret ([],
                Some (Wrapf err
                        "error retrieving role assignments from store" []))
       | inl l => ret (l, None)
       end)
   end)%op.

(** Modelled from the spec: [roleAssignmentsService.Revoke] is not among
    the sources, only its tests are; it mirrors [Grant], with the store's
    error wrapped as "error revoking role". *)
Definition Revoke (r : roleAssignmentsService) (ctx : ctxT)
  (roleAssignment : RoleAssignment) : Op (option error) :=
  (access (AuthorizeCheck [RoleAdmin]) ;;;
   match authorize r ctx [RoleAdmin] with
   | Some err => ret (Some err)
   | None =>
      (early <- checkPrincipal r (RoleAssignment_Principal roleAssignment) ;;
       match early with
       | Some e => ret e
       | None =>
           res <- callStore (roleAssignmentsStore r)
                    (RoleAssignmentsStoreRevoke roleAssignment)
                    (fun s => RevokeFn s roleAssignment) ;;
           match res with
           | Some err =>
               ret (Some (Wrapf err "error revoking role"
                            [PrincipalReference_ID
                               (RoleAssignment_Principal roleAssignment)]))
           | None => ret None
           end
       end)
   end)%op.

End RoleAssignmentsService.

Arguments authorize {ctxT} r.
Arguments usersStore {ctxT} r.
Arguments serviceAccountsStore {ctxT} r.
Arguments roleAssignmentsStore {ctxT} r.
Arguments Grant {ctxT} r ctx roleAssignment.
Arguments List_ {ctxT} r ctx.
Arguments Revoke {ctxT} r ctx roleAssignment.
Arguments AlwaysAuthorize {ctxT}.
Arguments NeverAuthorize {ctxT}.

(** Whether [$set] can follow a path through a document. *)
Fixpoint traversable (path : list string) (d : document) : bool :=
  match path with
  | [] => false
  | k :: rest =>
      negb (String.eqb k "")
      && match rest with
         | [] => true
         | _ :: _ =>
             match getField k d with
             | None => traversable rest []
             | Some (BDoc sub) => traversable rest sub
             | Some _ => false
             end
         end
  end.

Definition noDot (s : string) : bool :=
  allChars (fun c => negb (Ascii.eqb c ".")) s.

Definition findUser (c : memCollection) (id : string) : option document :=
  find (matches [("id", BString id)]) c.

Definition storedLocked (c : memCollection) (id : string) : option bson :=
  match findUser c id with
  | Some d => getField "locked" d
  | None => None
  end.

(** The service of the "unauthorized" test cases: [NeverAuthorize] and no
    store at all. *)
Definition unauthorizedService : roleAssignmentsService unit :=
  {| authorize := NeverAuthorize;
     usersStore := None;
     serviceAccountsStore := None;
     roleAssignmentsStore := None |}.

Definition sampleRoleAssignment : RoleAssignment :=
  {| RoleAssignment_Role := RoleProjectAdmin "hello";
     RoleAssignment_Principal :=
       {| PrincipalReference_Type := PrincipalTypeServiceAccount;
          PrincipalReference_ID := "foo" |} |}.

(* ================================================================== *)
(** ** The reserved principals as one type, and derived contexts *)

(** Any one of the principals package [authn] constructs. *)
Inductive namedPrincipal : Type :=
| namedRoot
| namedScheduler
| namedObserver
| namedWorker (eventID : string).

Definition rolesOf (p : namedPrincipal) : list Role :=
  match p with
  | namedRoot => Roles root
  | namedScheduler => Roles scheduler
  | namedObserver => Roles observer
  | namedWorker e => Roles (worker e)
  end.

(** What code outside package [authx] can put on top of a context: a
    cancellation or deadline wrapper, or a value under a key of its own. *)
Inductive layer (P : Type) : Type :=
| cancelLayer
| valueLayer (name : string) (val : any P).

Arguments cancelLayer {P}.
Arguments valueLayer {P} name val.

(** The context after the layers are applied, the last of the list first. *)
Fixpoint derive {P : Type} (ls : list (layer P)) (ctx : Ctx P) : Ctx P :=
  match ls with
  | [] => ctx
  | cancelLayer :: ls' => cancelCtx (derive ls' ctx)
  | valueLayer name val :: ls' =>
      WithValue (derive ls' ctx) (otherKey name) val
  end.

(** The IDs of the documents of a collection, in order. *)
Definition documentIDs (c : memCollection) : list (option bson) :=
  map (getField "id") c.

(* ================================================================== *)
(** ** Sample documents *)

Definition succeededStatus : JobStatus :=
  {| Phase_ := SUCCEEDED; Started := Some 100%Z; Ended := Some 200%Z |}.

Definition runningStatus : JobStatus :=
  {| Phase_ := RUNNING; Started := Some 300%Z; Ended := None |}.

Definition buildJob : Job :=
  {| Spec := {| PrimaryContainerImage := "alpine" |};
     Status := succeededStatus |}.

Definition rebuildJob : Job :=
  {| Spec := {| PrimaryContainerImage := "debian" |};
     Status := {| Phase_ := PENDING; Started := None; Ended := None |} |}.

(** Two Events; the second has a Worker in the given phase and one Job. *)
Definition sampleEvents (workerPhase : Phase) : memCollection :=
  [eventDoc "evt-0" RUNNING [];
   eventDoc "evt-1" workerPhase [("build", buildJob)]].

Definition sampleUsers : memCollection :=
  [[("id", BString "tony@starkindustries.com"); ("locked", BBool false)]].

(* ================================================================== *)
(** * Properties *)

(** ** Strings and dotted paths *)

Lemma jobNameChar_not_dot (c : ascii) :
  jobNameChar c = true -> Ascii.eqb c "." = false.
Proof.
  intro Hc. destruct (Ascii.eqb c ".") eqn:E; [|reflexivity].
  apply Ascii.eqb_eq in E. subst c. vm_compute in Hc. discriminate.
Qed.

Lemma allChars_impl (p q : ascii -> bool) (s : string) :
  (forall c, p c = true -> q c = true) ->
  allChars p s = true -> allChars q s = true.
Proof.
  intro Hpq. induction s as [|c s IH]; simpl; [reflexivity|].
  intro Hs. apply andb_true_iff in Hs as [Hc Hs].
  rewrite (Hpq _ Hc), (IH Hs). reflexivity.
Qed.

Lemma validJobName_noDot (n : string) :
  validJobName n = true -> noDot n = true.
Proof.
  unfold validJobName, noDot. intro Hn.
  apply andb_true_iff in Hn as [Hn _]. apply andb_true_iff in Hn as [Hn _].
  revert Hn. apply allChars_impl. intros c Hc.
  rewrite (jobNameChar_not_dot c Hc). reflexivity.
Qed.

Lemma validJobName_nonempty (n : string) :
  validJobName n = true -> String.eqb n "" = false.
Proof.
  unfold validJobName. intro Hn.
  apply andb_true_iff in Hn as [Hn _]. apply andb_true_iff in Hn as [_ Hn].
  destruct n; [discriminate Hn | reflexivity].
Qed.

Lemma splitDots_noDot (s : string) :
  noDot s = true -> splitDots s = [s].
Proof.
  unfold noDot. induction s as [|c s IH]; simpl; [reflexivity|].
  intro Hs. apply andb_true_iff in Hs as [Hc Hs].
  apply negb_true_iff in Hc. rewrite Hc, (IH Hs). reflexivity.
Qed.

Lemma splitDots_app_dot (a b : string) :
  noDot a = true -> splitDots (a ++ String "." b) = a :: splitDots b.
Proof.
  unfold noDot. induction a as [|c a IH]; simpl; [reflexivity|].
  intro Ha. apply andb_true_iff in Ha as [Hc Ha].
  apply negb_true_iff in Hc. rewrite Hc, (IH Ha). reflexivity.
Qed.

Lemma createPath_split (jobName : string) :
  validJobName jobName = true ->
  splitDots ("worker.jobs." ++ jobName) = ["worker"; "jobs"; jobName].
Proof.
  intro Hn.
  change ("worker.jobs." ++ jobName)
    with ("worker" ++ String "." ("jobs" ++ String "." jobName)).
  rewrite splitDots_app_dot by reflexivity.
  rewrite splitDots_app_dot by reflexivity.
  rewrite splitDots_noDot by (apply validJobName_noDot; exact Hn).
  reflexivity.
Qed.

Lemma updateStatusPath_split (jobName : string) :
  validJobName jobName = true ->
  splitDots ("worker.jobs." ++ jobName ++ ".status")
  = ["worker"; "jobs"; jobName; "status"].
Proof.
  intro Hn.
  change ("worker.jobs." ++ jobName ++ ".status")
    with ("worker" ++ String "."
            ("jobs" ++ String "." (jobName ++ String "." "status"))).
  rewrite splitDots_app_dot by reflexivity.
  rewrite splitDots_app_dot by reflexivity.
  rewrite splitDots_app_dot by (apply validJobName_noDot; exact Hn).
  reflexivity.
Qed.

(** ** Fields and paths of a document *)

Lemma getField_setField_same (k : string) (v : bson) (d : document) :
  getField k (setField k v d) = Some v.
Proof.
  induction d as [|[k' v'] d IH]; simpl.
  - rewrite String.eqb_refl. reflexivity.
  - destruct (String.eqb k k') eqn:E; simpl.
    + rewrite String.eqb_refl. reflexivity.
    + rewrite E. exact IH.
Qed.

Lemma getField_setField_other (k k' : string) (v : bson) (d : document) :
  String.eqb k' k = false ->
  getField k' (setField k v d) = getField k' d.
Proof.
  intro Hk. induction d as [|[k0 v0] d IH]; simpl.
  - rewrite Hk. reflexivity.
  - destruct (String.eqb k k0) eqn:E; simpl.
    + apply String.eqb_eq in E. subst k0. rewrite Hk. reflexivity.
    + rewrite IH. reflexivity.
Qed.

Lemma setField_keys (k : string) (v v0 : bson) (d : document) :
  getField k d = Some v0 ->
  map fst (setField k v d) = map fst d.
Proof.
  induction d as [|[k' v'] d IH]; simpl; [discriminate|].
  destruct (String.eqb k k') eqn:E; simpl.
  - intros _. apply String.eqb_eq in E. subst k'. reflexivity.
  - intro Hd. rewrite (IH Hd). reflexivity.
Qed.

Lemma getPath_setPath (path : list string) (v : bson) :
  forall d d', setPath path v d = Some d' -> getPath path d' = Some v.
Proof.
  induction path as [|k rest IH]; intros d d'; simpl; [discriminate|].
  destruct (String.eqb k ""); [discriminate|].
  destruct rest as [|k2 rest].
  - intro Hs. injection Hs as <-. apply getField_setField_same.
  - destruct (getField k d) as [[| | | |sub]|]; try discriminate.
    + destruct (setPath (k2 :: rest) v sub) as [sub'|] eqn:Es; [|discriminate].
      intro Hs. injection Hs as <-.
      rewrite getField_setField_same. exact (IH _ _ Es).
    + destruct (setPath (k2 :: rest) v []) as [sub'|] eqn:Es; [|discriminate].
      intro Hs. injection Hs as <-.
      rewrite getField_setField_same. exact (IH _ _ Es).
Qed.

Lemma setPath_traversable (path : list string) (v : bson) :
  forall d, traversable path d = true <-> exists d', setPath path v d = Some d'.
Proof.
  induction path as [|k rest IH]; intro d; simpl.
  - split; [discriminate | intros [d' Hd]; discriminate].
  - destruct (String.eqb k ""); simpl.
    + split; [discriminate | intros [d' Hd]; discriminate].
    + destruct rest as [|k2 rest].
      * split; [intros _; eexists; reflexivity | reflexivity].
      * destruct (getField k d) as [[| | | |sub]|];
          try (split; [discriminate | intros [d' Hd]; discriminate]).
        -- rewrite (IH sub).
           destruct (setPath (k2 :: rest) v sub) as [sub'|].
           ++ split; intros _; eexists; reflexivity.
           ++ split; intros [d' Hd]; discriminate.
        -- rewrite (IH []).
           destruct (setPath (k2 :: rest) v []) as [sub'|].
           ++ split; intros _; eexists; reflexivity.
           ++ split; intros [d' Hd]; discriminate.
Qed.

(** A write along a path leaves every other top-level field alone. *)
Lemma setPath_other_field (path : list string) (v : bson) (k' : string) :
  forall d d',
    setPath path v d = Some d' ->
    String.eqb k' (hd "" path) = false ->
    getField k' d' = getField k' d.
Proof.
  destruct path as [|k rest]; intros d d'; simpl; [discriminate|].
  destruct (String.eqb k ""); [discriminate|].
  destruct rest as [|k2 rest].
  - intros Hs Hk. injection Hs as <-. apply getField_setField_other, Hk.
  - destruct (getField k d) as [[| | | |sub]|]; try discriminate.
    + destruct (setPath (k2 :: rest) v sub); [|discriminate].
      intros Hs Hk. injection Hs as <-. apply getField_setField_other, Hk.
    + destruct (setPath (k2 :: rest) v []); [|discriminate].
      intros Hs Hk. injection Hs as <-. apply getField_setField_other, Hk.
Qed.

(** ** [UpdateOne] on the in-memory collection *)

Lemma applyUpdate_set_one (path : string) (v : bson) (d : document) :
  applyUpdate [("$set", BDoc [(path, v)])] d = setPath (splitDots path) v d.
Proof.
  simpl. destruct (setPath (splitDots path) v d); reflexivity.
Qed.

Lemma matches_id (id : string) (d : document) :
  matches [("id", BString id)] d = true <-> getField "id" d = Some (BString id).
Proof.
  unfold matches, fieldMatches; simpl.
  destruct (getField "id" d) as [[| |s|z|fs]|]; simpl;
    try (split; discriminate).
  rewrite andb_true_r. split.
  - intro E. apply String.eqb_eq in E. subst. reflexivity.
  - intro E. injection E as ->. apply String.eqb_refl.
Qed.

Lemma matches_same_id (id : string) (d d' : document) :
  getField "id" d' = getField "id" d ->
  matches [("id", BString id)] d' = matches [("id", BString id)] d.
Proof.
  unfold matches, fieldMatches; simpl. intros ->. reflexivity.
Qed.

Lemma memUpdateFirst_no_match (c : memCollection) (filter update : document) :
  find (matches filter) c = None ->
  memUpdateFirst c filter update = (c, inl {| MatchedCount := 0 |}).
Proof.
  induction c as [|d c IH]; simpl; [reflexivity|].
  destruct (matches filter d); [discriminate|].
  intro Hc. rewrite (IH Hc). reflexivity.
Qed.

Lemma memUpdateFirst_write_error (c : memCollection)
  (filter update d : document) :
  find (matches filter) c = Some d ->
  applyUpdate update d = None ->
  memUpdateFirst c filter update = (c, inr (DriverError "write exception")).
Proof.
  induction c as [|d0 c IH]; simpl; [discriminate|].
  destruct (matches filter d0).
  - intros Hd Hu. injection Hd as ->. rewrite Hu. reflexivity.
  - intros Hd Hu. rewrite (IH Hd Hu). reflexivity.
Qed.

Lemma memUpdateFirst_found (c : memCollection) (filter update d d' : document) :
  find (matches filter) c = Some d ->
  applyUpdate update d = Some d' ->
  matches filter d' = true ->
  exists c',
    memUpdateFirst c filter update = (c', inl {| MatchedCount := 1 |})
    /\ find (matches filter) c' = Some d'.
Proof.
  induction c as [|d0 c IH]; simpl; [discriminate|].
  destruct (matches filter d0) eqn:Em.
  - intros Hd Hu Hm. injection Hd as ->. rewrite Hu.
    exists (d' :: c). split; [reflexivity|]. simpl. rewrite Hm. reflexivity.
  - intros Hd Hu Hm. destruct (IH Hd Hu Hm) as [c' [Hc' Hf]].
    rewrite Hc'. exists (d0 :: c'). split; [reflexivity|].
    simpl. rewrite Em. exact Hf.
Qed.

(** The three answers of [UpdateOne]: nothing matched, the write failed, or
    one document was matched and written.  The first two leave the
    collection as it was. *)
Lemma memUpdateFirst_cases (c : memCollection) (filter update : document) :
  memUpdateFirst c filter update = (c, inl {| MatchedCount := 0 |})
  \/ memUpdateFirst c filter update = (c, inr (DriverError "write exception"))
  \/ exists c',
       memUpdateFirst c filter update = (c', inl {| MatchedCount := 1 |}).
Proof.
  destruct (find (matches filter) c) as [d|] eqn:Ef.
  - destruct (applyUpdate update d) as [d'|] eqn:Eu.
    + right; right. clear -Ef Eu. revert Ef.
      induction c as [|d0 c IH]; simpl; [discriminate|].
      destruct (matches filter d0).
      * intro Hd. injection Hd as ->. rewrite Eu. eexists; reflexivity.
      * intro Hd. destruct (IH Hd) as [c' ->]. eexists; reflexivity.
    + right; left. eapply memUpdateFirst_write_error; eassumption.
  - left. apply memUpdateFirst_no_match, Ef.
Qed.

(** Writing one path of the Event matched by its ID; the [id] field is not
    on the path, so the written document is still the one the ID finds. *)
Lemma memUpdateFirst_set_event (c : memCollection) (eventID path : string)
  (v : bson) (d d' : document) :
  findEvent c eventID = Some d ->
  setPath (splitDots path) v d = Some d' ->
  String.eqb "id" (hd "" (splitDots path)) = false ->
  exists c',
    memUpdateFirst c [("id", BString eventID)] [("$set", BDoc [(path, v)])]
    = (c', inl {| MatchedCount := 1 |})
    /\ findEvent c' eventID = Some d'.
Proof.
  unfold findEvent. intros Hf Hs Hk.
  apply memUpdateFirst_found with (d := d); [exact Hf | | ].
  - rewrite applyUpdate_set_one. exact Hs.
  - rewrite (matches_same_id eventID d d').
    + apply find_some in Hf. apply Hf.
    + eapply setPath_other_field; eassumption.
Qed.

(** ** [UpdateOne] with its check of the update *)

Lemma hasNul_app (a b : string) : hasNul (a ++ b) = hasNul a || hasNul b.
Proof.
  induction a as [|x a IH]; simpl; [reflexivity|].
  rewrite IH, orb_assoc. reflexivity.
Qed.

Lemma jobNameChar_not_nul (c : ascii) :
  jobNameChar c = true -> Ascii.eqb c "000" = false.
Proof.
  intro Hc. destruct (Ascii.eqb c "000") eqn:E; [|reflexivity].
  apply Ascii.eqb_eq in E. subst c. vm_compute in Hc. discriminate.
Qed.

Lemma validJobName_noNul (n : string) :
  validJobName n = true -> hasNul n = false.
Proof.
  unfold validJobName. intro Hn.
  apply andb_true_iff in Hn as [Hn _]. apply andb_true_iff in Hn as [Hn _].
  induction n as [|c n IH]; simpl; [reflexivity|].
  simpl in Hn. apply andb_true_iff in Hn as [Hc Hn].
  rewrite (jobNameChar_not_nul c Hc), (IH Hn). reflexivity.
Qed.

Lemma validPath_create (jobName : string) :
  validJobName jobName = true -> validPath ("worker.jobs." ++ jobName) = true.
Proof.
  intro Hn. unfold validPath. rewrite createPath_split by exact Hn.
  rewrite hasNul_app, (validJobName_noNul _ Hn). simpl.
  rewrite (validJobName_nonempty _ Hn). reflexivity.
Qed.

Lemma validPath_updateStatus (jobName : string) :
  validJobName jobName = true ->
  validPath ("worker.jobs." ++ jobName ++ ".status") = true.
Proof.
  intro Hn. unfold validPath. rewrite updateStatusPath_split by exact Hn.
  rewrite !hasNul_app, (validJobName_noNul _ Hn). simpl.
  rewrite (validJobName_nonempty _ Hn). reflexivity.
Qed.

Lemma validUpdate_set_one (path : string) (v : bson) :
  validUpdate [("$set", BDoc [(path, v)])] = validPath path.
Proof.
  unfold validUpdate, validOperator. simpl. rewrite !andb_true_r. reflexivity.
Qed.

Lemma memUpdateOne_valid (c : memCollection) (filter update : document) :
  validUpdate update = true ->
  memUpdateOne c filter update = memUpdateFirst c filter update.
Proof.
  intro Hv. unfold memUpdateOne. rewrite Hv. reflexivity.
Qed.

Lemma memUpdateOne_refused (c : memCollection) (filter update : document) :
  validUpdate update = false ->
  memUpdateOne c filter update = (c, inr (DriverError "write exception")).
Proof.
  intro Hv. unfold memUpdateOne. rewrite Hv. reflexivity.
Qed.

Lemma memUpdateOne_no_match (c : memCollection) (filter update : document) :
  validUpdate update = true ->
  find (matches filter) c = None ->
  memUpdateOne c filter update = (c, inl {| MatchedCount := 0 |}).
Proof.
  intros Hv Hf. rewrite (memUpdateOne_valid _ _ _ Hv).
  apply memUpdateFirst_no_match, Hf.
Qed.

Lemma memUpdateOne_write_error (c : memCollection)
  (filter update d : document) :
  find (matches filter) c = Some d ->
  applyUpdate update d = None ->
  memUpdateOne c filter update = (c, inr (DriverError "write exception")).
Proof.
  intros Hf Hu. destruct (validUpdate update) eqn:Hv.
  - rewrite (memUpdateOne_valid _ _ _ Hv).
    eapply memUpdateFirst_write_error; eassumption.
  - apply memUpdateOne_refused, Hv.
Qed.

(** The three answers of [UpdateOne]: nothing matched, an error, or one
    document was matched and written.  The first two leave the collection
    as it was. *)
Lemma memUpdateOne_cases (c : memCollection) (filter update : document) :
  memUpdateOne c filter update = (c, inl {| MatchedCount := 0 |})
  \/ memUpdateOne c filter update = (c, inr (DriverError "write exception"))
  \/ exists c',
       memUpdateOne c filter update = (c', inl {| MatchedCount := 1 |}).
Proof.
  destruct (validUpdate update) eqn:Hv.
  - rewrite (memUpdateOne_valid _ _ _ Hv). apply memUpdateFirst_cases.
  - right; left. apply memUpdateOne_refused, Hv.
Qed.

Lemma memUpdateOne_set_event (c : memCollection) (eventID path : string)
  (v : bson) (d d' : document) :
  findEvent c eventID = Some d ->
  setPath (splitDots path) v d = Some d' ->
  String.eqb "id" (hd "" (splitDots path)) = false ->
  validPath path = true ->
  exists c',
    memUpdateOne c [("id", BString eventID)] [("$set", BDoc [(path, v)])]
    = (c', inl {| MatchedCount := 1 |})
    /\ findEvent c' eventID = Some d'.
Proof.
  intros Hf Hs Hk Hv. rewrite memUpdateOne_valid.
  - eapply memUpdateFirst_set_event; eassumption.
  - rewrite validUpdate_set_one. exact Hv.
Qed.

(** ** The jobs store over any collection *)

Section JobsStoreOutcome.

Context {C : Type} {HC : Collection C}.

Lemma Create_outcome (j : jobsStore C) (eventID jobName : string) (job : Job)
  (c : C) (r : UpdateResult + error) :
  UpdateOne (collection j)
    [("id", BString eventID)]
    [("$set", BDoc [("worker.jobs." ++ jobName, marshalJob job)])] = (c, r) ->
  Create j eventID jobName job
  = ({| collection := c |},
     match r with
     | inr err =>
         Some (Wrapf err "error updating spec of event %q job %q"
                 [eventID; jobName])
     | inl res =>
         if (MatchedCount res =? 0)%Z
         then Some (ErrNotFound "Event" eventID) else None
     end).
Proof.
  intro Hu. unfold Create. rewrite Hu.
  destruct r as [res|err]; [|reflexivity].
  destruct (MatchedCount res =? 0)%Z; reflexivity.
Qed.

Lemma UpdateStatus_outcome (j : jobsStore C) (eventID jobName : string)
  (status : JobStatus) (c : C) (r : UpdateResult + error) :
  UpdateOne (collection j)
    [("id", BString eventID)]
    [("$set",
      BDoc [("worker.jobs." ++ jobName ++ ".status",
             marshalJobStatus status)])] = (c, r) ->
  UpdateStatus j eventID jobName status
  = ({| collection := c |},
     match r with
     | inr err =>
         Some (Wrapf err "error updating status of event %q worker job %q"
                 [eventID; jobName])
     | inl res =>
         if (MatchedCount res =? 0)%Z
         then Some (ErrNotFound "Job" eventID) else None
     end).
Proof.
  intro Hu. unfold UpdateStatus. rewrite Hu.
  destruct r as [res|err]; [|reflexivity].
  destruct (MatchedCount res =? 0)%Z; reflexivity.
Qed.

End JobsStoreOutcome.

(** ** The jobs store over the in-memory collection *)

Lemma setPath_job (n : string) (v : bson) (d w js : document) :
  String.eqb n "" = false ->
  getField "worker" d = Some (BDoc w) ->
  getField "jobs" w = Some (BDoc js) ->
  setPath ["worker"; "jobs"; n] v d
  = Some (setField "worker"
            (BDoc (setField "jobs" (BDoc (setField n v js)) w)) d).
Proof.
  intros Hn Hw Hjs. simpl. rewrite Hw, Hjs, Hn. reflexivity.
Qed.

Lemma setPath_job_status (n : string) (v : bson) (d w js : document) :
  String.eqb n "" = false ->
  getField "worker" d = Some (BDoc w) ->
  getField "jobs" w = Some (BDoc js) ->
  match getField n js with
  | None | Some (BDoc _) => True
  | Some _ => False
  end ->
  setPath ["worker"; "jobs"; n; "status"] v d
  = Some (setField "worker"
            (BDoc (setField "jobs"
                     (BDoc (setField n
                              (BDoc (setField "status" v
                                       match getField n js with
                                       | Some (BDoc j) => j
                                       | _ => []
                                       end)) js)) w)) d).
Proof.
  intros Hn Hw Hjs Hj. simpl. rewrite Hw, Hjs, Hn.
  destruct (getField n js) as [[| | | |j]|]; try contradiction; reflexivity.
Qed.

Lemma Create_no_event (c : memCollection) (eventID jobName : string)
  (job : Job) :
  validJobName jobName = true ->
  findEvent c eventID = None ->
  Create {| collection := c |} eventID jobName job
  = ({| collection := c |}, Some (ErrNotFound "Event" eventID)).
Proof.
  intros Hn Hf.
  rewrite (Create_outcome _ _ _ _ c (inl {| MatchedCount := 0 |}));
    [reflexivity|].
  apply memUpdateOne_no_match; [|exact Hf].
  rewrite validUpdate_set_one. apply validPath_create, Hn.
Qed.

Lemma UpdateStatus_no_event (c : memCollection) (eventID jobName : string)
  (status : JobStatus) :
  validJobName jobName = true ->
  findEvent c eventID = None ->
  UpdateStatus {| collection := c |} eventID jobName status
  = ({| collection := c |}, Some (ErrNotFound "Job" eventID)).
Proof.
  intros Hn Hf.
  rewrite (UpdateStatus_outcome _ _ _ _ c (inl {| MatchedCount := 0 |}));
    [reflexivity|].
  apply memUpdateOne_no_match; [|exact Hf].
  rewrite validUpdate_set_one. apply validPath_updateStatus, Hn.
Qed.

Lemma Create_matched (c : memCollection) (eventID jobName : string) (job : Job)
  (d d' : document) :
  validJobName jobName = true ->
  findEvent c eventID = Some d ->
  setPath ["worker"; "jobs"; jobName] (marshalJob job) d = Some d' ->
  exists c',
    Create {| collection := c |} eventID jobName job
    = ({| collection := c' |}, None)
    /\ findEvent c' eventID = Some d'.
Proof.
  intros Hn Hf Hs.
  destruct (memUpdateOne_set_event c eventID ("worker.jobs." ++ jobName)
              (marshalJob job) d d' Hf) as [c' [Hu Hf']].
  - rewrite createPath_split by exact Hn. exact Hs.
  - rewrite createPath_split by exact Hn. reflexivity.
  - apply validPath_create, Hn.
  - exists c'. split; [|exact Hf'].
    rewrite (Create_outcome _ _ _ _ c' (inl {| MatchedCount := 1 |}));
      [reflexivity | exact Hu].
Qed.

Lemma UpdateStatus_matched (c : memCollection) (eventID jobName : string)
  (status : JobStatus) (d d' : document) :
  validJobName jobName = true ->
  findEvent c eventID = Some d ->
  setPath ["worker"; "jobs"; jobName; "status"] (marshalJobStatus status) d
  = Some d' ->
  exists c',
    UpdateStatus {| collection := c |} eventID jobName status
    = ({| collection := c' |}, None)
    /\ findEvent c' eventID = Some d'.
Proof.
  intros Hn Hf Hs.
  destruct (memUpdateOne_set_event c eventID
              ("worker.jobs." ++ jobName ++ ".status")
              (marshalJobStatus status) d d' Hf) as [c' [Hu Hf']].
  - rewrite updateStatusPath_split by exact Hn. exact Hs.
  - rewrite updateStatusPath_split by exact Hn. reflexivity.
  - apply validPath_updateStatus, Hn.
  - exists c'. split; [|exact Hf'].
    rewrite (UpdateStatus_outcome _ _ _ _ c' (inl {| MatchedCount := 1 |}));
      [reflexivity | exact Hu].
Qed.

(** [UpdateStatus] answers nil, [ErrNotFound] or a wrapped driver error, and
    in the last two cases the collection is as it was. *)
Lemma UpdateStatus_answers (c : memCollection) (eventID jobName : string)
  (status : JobStatus) :
  UpdateStatus {| collection := c |} eventID jobName status
  = ({| collection := c |}, Some (ErrNotFound "Job" eventID))
  \/ UpdateStatus {| collection := c |} eventID jobName status
     = ({| collection := c |},
        Some (Wrapf (DriverError "write exception")
                "error updating status of event %q worker job %q"
                [eventID; jobName]))
  \/ exists c',
       UpdateStatus {| collection := c |} eventID jobName status
       = ({| collection := c' |}, None).
Proof.
  destruct (memUpdateOne_cases c [("id", BString eventID)]
              [("$set",
                BDoc [("worker.jobs." ++ jobName ++ ".status",
                       marshalJobStatus status)])])
    as [Hu | [Hu | [c' Hu]]].
  - left. rewrite (UpdateStatus_outcome (HC := memCollection_Collection)
               {| collection := c |} eventID jobName status _ _ Hu).
    reflexivity.
  - right; left. rewrite (UpdateStatus_outcome (HC := memCollection_Collection)
               {| collection := c |} eventID jobName status _ _ Hu).
    reflexivity.
  - right; right. exists c'.
    rewrite (UpdateStatus_outcome (HC := memCollection_Collection)
               {| collection := c |} eventID jobName status _ _ Hu).
    reflexivity.
Qed.

Lemma storedJobs_shape (c : memCollection) (eventID : string) (js : document) :
  storedJobs c eventID = Some (BDoc js) ->
  exists d w,
    findEvent c eventID = Some d
    /\ getField "worker" d = Some (BDoc w)
    /\ getField "jobs" w = Some (BDoc js).
Proof.
  unfold storedJobs. destruct (findEvent c eventID) as [d|]; [|discriminate].
  simpl. destruct (getField "worker" d) as [[| | | |w]|] eqn:Hw;
    try discriminate.
  intro Hjs. exists d, w. repeat split; assumption.
Qed.

(** Reading the Event back after a write below [worker.jobs]. *)
Lemma jobs_after_write (d w js js' : document) :
  getField "worker" d = Some (BDoc w) ->
  getField "jobs" w = Some (BDoc js) ->
  let d' := setField "worker" (BDoc (setField "jobs" (BDoc js') w)) d in
  getPath ["worker"; "jobs"] d' = Some (BDoc js')
  /\ getPath ["worker"; "status"; "phase"] d'
     = getPath ["worker"; "status"; "phase"] d.
Proof.
  intros Hw Hjs d'. subst d'. simpl.
  rewrite getField_setField_same, getField_setField_same, Hw.
  rewrite getField_setField_other by reflexivity. split; reflexivity.
Qed.

Lemma Create_stores (c : memCollection) (eventID jobName : string) (job : Job)
  (js : document) :
  validJobName jobName = true ->
  storedJobs c eventID = Some (BDoc js) ->
  exists c',
    Create {| collection := c |} eventID jobName job
    = ({| collection := c' |}, None)
    /\ storedJobs c' eventID
       = Some (BDoc (setField jobName (marshalJob job) js))
    /\ storedJob c' eventID jobName = Some (marshalJob job)
    /\ storedWorkerPhase c' eventID = storedWorkerPhase c eventID.
Proof.
  intros Hn Hjs.
  destruct (storedJobs_shape _ _ _ Hjs) as [d [w [Hf [Hw Hj]]]].
  pose proof (setPath_job jobName (marshalJob job) d w js
                (validJobName_nonempty _ Hn) Hw Hj) as Hs.
  destruct (Create_matched c eventID jobName job d _ Hn Hf Hs) as [c' [Hc Hf']].
  exists c'. split; [exact Hc|].
  destruct (jobs_after_write d w js
              (setField jobName (marshalJob job) js) Hw Hj)
    as [Hjobs Hphase].
  unfold storedJobs, storedJob, storedWorkerPhase. rewrite Hf', Hf.
  repeat split.
  - exact Hjobs.
  - exact (getPath_setPath _ _ _ _ Hs).
  - exact Hphase.
Qed.

Lemma UpdateStatus_stores (c : memCollection) (eventID jobName : string)
  (status : JobStatus) (js : document) :
  validJobName jobName = true ->
  storedJobs c eventID = Some (BDoc js) ->
  match getField jobName js with
  | None | Some (BDoc _) => True
  | Some _ => False
  end ->
  exists c',
    UpdateStatus {| collection := c |} eventID jobName status
    = ({| collection := c' |}, None)
    /\ storedJobStatus c' eventID jobName = Some (marshalJobStatus status)
    /\ storedJob c' eventID jobName
       = Some (BDoc (setField "status" (marshalJobStatus status)
                       match getField jobName js with
                       | Some (BDoc j) => j
                       | _ => []
                       end)).
Proof.
  intros Hn Hjs Hjob.
  destruct (storedJobs_shape _ _ _ Hjs) as [d [w [Hf [Hw Hj]]]].
  pose proof (setPath_job_status jobName (marshalJobStatus status) d w js
                (validJobName_nonempty _ Hn) Hw Hj Hjob) as Hs.
  destruct (UpdateStatus_matched c eventID jobName status d _ Hn Hf Hs)
    as [c' [Hc Hf']].
  exists c'. split; [exact Hc|].
  unfold storedJobStatus, storedJob. rewrite Hf'. split.
  - exact (getPath_setPath _ _ _ _ Hs).
  - simpl. repeat rewrite getField_setField_same. reflexivity.
Qed.

(** ** The state-machine graph *)

Lemma terminal_has_no_transition (p q : Phase) :
  terminal p = true -> transitionAllowed p q = false.
Proof.
  destruct p; try discriminate; destruct q; reflexivity.
Qed.

Lemma transitionAllowed_from_live (p q : Phase) :
  transitionAllowed p q = true -> terminal p = false.
Proof.
  destruct p; destruct q; try discriminate; reflexivity.
Qed.

(** ** Claims about the jobs store *)

(** C1, as the code has it.  [jobsStore.UpdateStatus] does not consult the
    state-machine graph: it never answers [Conflict]; whenever it answers an
    error the stored documents are unchanged; and for a matched Event it
    writes the new status of an existing Job whatever the Job's current
    status is, terminal phases included. *)
Theorem C1_UpdateStatus_writes_whatever_the_phase
  (c : memCollection) (eventID jobName : string) (status : JobStatus) :
  isConflict (snd (UpdateStatus {| collection := c |} eventID jobName status))
  = false
  /\ (snd (UpdateStatus {| collection := c |} eventID jobName status) <> None ->
      fst (UpdateStatus {| collection := c |} eventID jobName status)
      = {| collection := c |})
  /\ (forall (js j : document) (old : JobStatus),
        validJobName jobName = true ->
        storedJobs c eventID = Some (BDoc js) ->
        getField jobName js = Some (BDoc j) ->
        getField "status" j = Some (marshalJobStatus old) ->
        exists c',
          UpdateStatus {| collection := c |} eventID jobName status
          = ({| collection := c' |}, None)
          /\ storedJobStatus c' eventID jobName
             = Some (marshalJobStatus status)).
Proof.
  split; [|split].
  - destruct (UpdateStatus_answers c eventID jobName status)
      as [-> | [-> | [c' ->]]]; reflexivity.
  - destruct (UpdateStatus_answers c eventID jobName status)
      as [-> | [-> | [c' ->]]]; simpl; intro Hr;
      [reflexivity | reflexivity | contradiction].
  - intros js j old Hn Hjs Hj _.
    destruct (UpdateStatus_stores c eventID jobName status js Hn Hjs)
      as [c' [Hc [Hst _]]].
    + rewrite Hj. exact I.
    + exists c'. split; assumption.
Qed.

(** C1 at a concrete input: a Job in the terminal phase SUCCEEDED is moved to
    RUNNING; the answer is nil and the stored status is the new one. *)
Lemma C1_counterexample :
  terminal SUCCEEDED = true
  /\ transitionAllowed SUCCEEDED RUNNING = false
  /\ storedJobStatus (sampleEvents RUNNING) "evt-1" "build"
     = Some (marshalJobStatus succeededStatus)
  /\ snd (UpdateStatus {| collection := sampleEvents RUNNING |}
            "evt-1" "build" runningStatus) = None
  /\ storedJobStatus
       (collection (fst (UpdateStatus {| collection := sampleEvents RUNNING |}
                           "evt-1" "build" runningStatus)))
       "evt-1" "build"
     = Some (marshalJobStatus runningStatus)
  /\ marshalJobStatus runningStatus <> marshalJobStatus succeededStatus.
Proof.
  repeat split; try reflexivity. discriminate.
Qed.

Lemma C1_witness :
  isConflict (snd (UpdateStatus {| collection := sampleEvents RUNNING |}
                     "evt-1" "build" runningStatus)) = false
  /\ exists c',
       UpdateStatus {| collection := sampleEvents RUNNING |}
         "evt-1" "build" runningStatus
       = ({| collection := c' |}, None)
       /\ storedJobStatus c' "evt-1" "build"
          = Some (marshalJobStatus runningStatus).
Proof.
  destruct (C1_UpdateStatus_writes_whatever_the_phase
              (sampleEvents RUNNING) "evt-1" "build" runningStatus)
    as [Hno [_ Hwrite]].
  split; [exact Hno|].
  apply (Hwrite
           [("build", marshalJob buildJob)]
           [("spec", marshalJobSpec (Spec buildJob));
            ("status", marshalJobStatus succeededStatus)]
           succeededStatus); reflexivity.
Defined.

(** C3, as the code has it.  [jobsStore.Create] does not look at the Worker
    phase: for a matched Event whose Worker is in any phase [ph], it answers
    nil and stores the Job, and the Worker phase stays [ph]. *)
Theorem C3_Create_whatever_the_worker_phase
  (c : memCollection) (eventID jobName : string) (job : Job)
  (ph : Phase) (js : document) :
  validJobName jobName = true ->
  storedWorkerPhase c eventID = Some (BString (phaseString ph)) ->
  storedJobs c eventID = Some (BDoc js) ->
  exists c',
    Create {| collection := c |} eventID jobName job
    = ({| collection := c' |}, None)
    /\ storedJob c' eventID jobName = Some (marshalJob job)
    /\ storedWorkerPhase c' eventID = Some (BString (phaseString ph)).
Proof.
  intros Hn Hph Hjs.
  destruct (Create_stores c eventID jobName job js Hn Hjs)
    as [c' [Hc [_ [Hjob Hphase]]]].
  exists c'. repeat split; [exact Hc | exact Hjob |].
  rewrite Hphase. exact Hph.
Qed.

(** C3 at a concrete input: the Worker is PENDING and a Job is created. *)
Lemma C3_counterexample :
  storedWorkerPhase (sampleEvents PENDING) "evt-1"
  = Some (BString (phaseString PENDING))
  /\ Phase_eqb PENDING RUNNING = false
  /\ snd (Create {| collection := sampleEvents PENDING |}
            "evt-1" "test" rebuildJob) = None
  /\ storedJob
       (collection (fst (Create {| collection := sampleEvents PENDING |}
                           "evt-1" "test" rebuildJob)))
       "evt-1" "test"
     = Some (marshalJob rebuildJob).
Proof.
  repeat split; reflexivity.
Qed.

Lemma C3_witness :
  exists c',
    Create {| collection := sampleEvents SUCCEEDED |} "evt-1" "test" rebuildJob
    = ({| collection := c' |}, None)
    /\ storedJob c' "evt-1" "test" = Some (marshalJob rebuildJob)
    /\ storedWorkerPhase c' "evt-1" = Some (BString (phaseString SUCCEEDED)).
Proof.
  apply (C3_Create_whatever_the_worker_phase
           (sampleEvents SUCCEEDED) "evt-1" "test" rebuildJob SUCCEEDED
           [("build", marshalJob buildJob)]); reflexivity.
Defined.

(** C4, as the code has it.  Creating a Job under a name the Worker already
    holds answers nil and replaces the stored Job sub-document with the new
    one; the names of the Worker's Jobs are the same as before, so the name
    still denotes one Job. *)
Theorem C4_Create_replaces_existing_job
  (c : memCollection) (eventID jobName : string) (job : Job)
  (js : document) (old : bson) :
  validJobName jobName = true ->
  storedJobs c eventID = Some (BDoc js) ->
  getField jobName js = Some old ->
  exists c' js',
    Create {| collection := c |} eventID jobName job
    = ({| collection := c' |}, None)
    /\ storedJobs c' eventID = Some (BDoc js')
    /\ getField jobName js' = Some (marshalJob job)
    /\ map fst js' = map fst js.
Proof.
  intros Hn Hjs Hold.
  destruct (Create_stores c eventID jobName job js Hn Hjs)
    as [c' [Hc [Hjobs _]]].
  exists c', (setField jobName (marshalJob job) js).
  repeat split; [exact Hc | exact Hjobs | |].
  - apply getField_setField_same.
  - eapply setField_keys, Hold.
Qed.

(** C4 at a concrete input: the Worker holds a Job "build"; creating another
    "build" answers nil and the stored Job is the new one. *)
Lemma C4_counterexample :
  storedJob (sampleEvents RUNNING) "evt-1" "build" = Some (marshalJob buildJob)
  /\ snd (Create {| collection := sampleEvents RUNNING |}
            "evt-1" "build" rebuildJob) = None
  /\ isConflict (snd (Create {| collection := sampleEvents RUNNING |}
                        "evt-1" "build" rebuildJob)) = false
  /\ storedJob
       (collection (fst (Create {| collection := sampleEvents RUNNING |}
                           "evt-1" "build" rebuildJob)))
       "evt-1" "build"
     = Some (marshalJob rebuildJob)
  /\ marshalJob rebuildJob <> marshalJob buildJob.
Proof.
  repeat split; try reflexivity. discriminate.
Qed.

Lemma C4_witness :
  exists c' js',
    Create {| collection := sampleEvents RUNNING |} "evt-1" "build" rebuildJob
    = ({| collection := c' |}, None)
    /\ storedJobs c' "evt-1" = Some (BDoc js')
    /\ getField "build" js' = Some (marshalJob rebuildJob)
    /\ map fst js' = map fst [("build", marshalJob buildJob)].
Proof.
  apply (C4_Create_replaces_existing_job
           (sampleEvents RUNNING) "evt-1" "build" rebuildJob
           [("build", marshalJob buildJob)] (marshalJob buildJob));
    reflexivity.
Defined.

(** C5, as the code has it.  When no stored Event document has the given ID
    and the job name is a valid one, [Create] and [UpdateStatus] both answer
    an [ErrNotFound] (and store nothing). *)
Theorem C5_no_event_is_NotFound
  (c : memCollection) (eventID jobName : string) (job : Job)
  (status : JobStatus) :
  validJobName jobName = true ->
  findEvent c eventID = None ->
  (Create {| collection := c |} eventID jobName job
   = ({| collection := c |}, Some (ErrNotFound "Event" eventID))
   /\ isNotFound (snd (Create {| collection := c |} eventID jobName job))
      = true)
  /\ (UpdateStatus {| collection := c |} eventID jobName status
      = ({| collection := c |}, Some (ErrNotFound "Job" eventID))
      /\ isNotFound
           (snd (UpdateStatus {| collection := c |} eventID jobName status))
         = true).
Proof.
  intros Hn Hf.
  rewrite (Create_no_event c eventID jobName job Hn Hf).
  rewrite (UpdateStatus_no_event c eventID jobName status Hn Hf).
  repeat split; reflexivity.
Qed.

(** C5 at a concrete input: no Event has the ID and the job name is empty.
    The update is refused before any document is looked at, and both methods
    answer the driver's error wrapped, not an [ErrNotFound]. *)
Lemma C5_counterexample :
  findEvent (sampleEvents RUNNING) "evt-9" = None
  /\ snd (Create {| collection := sampleEvents RUNNING |}
            "evt-9" "" buildJob)
     = Some (Wrapf (DriverError "write exception")
               "error updating spec of event %q job %q" ["evt-9"; ""])
  /\ isNotFound (snd (Create {| collection := sampleEvents RUNNING |}
                        "evt-9" "" buildJob)) = false
  /\ snd (UpdateStatus {| collection := sampleEvents RUNNING |}
            "evt-9" "" runningStatus)
     = Some (Wrapf (DriverError "write exception")
               "error updating status of event %q worker job %q"
               ["evt-9"; ""])
  /\ isNotFound (snd (UpdateStatus {| collection := sampleEvents RUNNING |}
                        "evt-9" "" runningStatus)) = false.
Proof.
  repeat split; reflexivity.
Qed.

Lemma C5_witness :
  findEvent (sampleEvents RUNNING) "evt-9" = None
  /\ Create {| collection := sampleEvents RUNNING |} "evt-9" "build" buildJob
     = ({| collection := sampleEvents RUNNING |},
        Some (ErrNotFound "Event" "evt-9"))
  /\ UpdateStatus {| collection := sampleEvents RUNNING |}
       "evt-9" "build" runningStatus
     = ({| collection := sampleEvents RUNNING |},
        Some (ErrNotFound "Job" "evt-9")).
Proof.
  split; [reflexivity|].
  destruct (C5_no_event_is_NotFound (sampleEvents RUNNING) "evt-9" "build"
              buildJob runningStatus eq_refl eq_refl) as [[Hc _] [Hu _]].
  split; [exact Hc | exact Hu].
Defined.

(** C10.  An [ErrNotFound] that [UpdateStatus] answers always has Type
    "Job" and the event ID as its ID (the job name is not in the error),
    and that is the answer when no Event matches and the job name is a
    valid one; and for a matched Event that holds no Job of the given name
    the status is written all the same: the answer is nil and afterwards the
    Worker holds a Job of that name made of the status alone. *)
Theorem C10_UpdateStatus_error_names_event_and_job_is_unchecked
  (c : memCollection) (eventID jobName : string) (status : JobStatus) :
  (forall t i : string,
     snd (UpdateStatus {| collection := c |} eventID jobName status)
     = Some (ErrNotFound t i) ->
     t = "Job" /\ i = eventID)
  /\ (validJobName jobName = true ->
      findEvent c eventID = None ->
      snd (UpdateStatus {| collection := c |} eventID jobName status)
      = Some (ErrNotFound "Job" eventID))
  /\ (forall js : document,
        validJobName jobName = true ->
        storedJobs c eventID = Some (BDoc js) ->
        getField jobName js = None ->
        exists c',
          UpdateStatus {| collection := c |} eventID jobName status
          = ({| collection := c' |}, None)
          /\ storedJob c' eventID jobName
             = Some (BDoc [("status", marshalJobStatus status)])).
Proof.
  split; [|split].
  - intros t i.
    destruct (UpdateStatus_answers c eventID jobName status)
      as [-> | [-> | [c' ->]]]; simpl; intro Hr; try discriminate Hr.
    injection Hr as <- <-. split; reflexivity.
  - intros Hn Hf.
    rewrite (UpdateStatus_no_event c eventID jobName status Hn Hf).
    reflexivity.
  - intros js Hn Hjs Hnone.
    destruct (UpdateStatus_stores c eventID jobName status js Hn Hjs)
      as [c' [Hc [_ Hjob]]].
    + rewrite Hnone. exact I.
    + exists c'. split; [exact Hc|]. rewrite Hjob, Hnone. reflexivity.
Qed.

Lemma C10_witness :
  snd (UpdateStatus {| collection := sampleEvents RUNNING |}
         "evt-9" "build" runningStatus)
  = Some (ErrNotFound "Job" "evt-9")
  /\ exists c',
       UpdateStatus {| collection := sampleEvents RUNNING |}
         "evt-1" "deploy" runningStatus
       = ({| collection := c' |}, None)
       /\ storedJob c' "evt-1" "deploy"
          = Some (BDoc [("status", marshalJobStatus runningStatus)]).
Proof.
  split.
  - apply (proj1 (proj2
                    (C10_UpdateStatus_error_names_event_and_job_is_unchecked
                       (sampleEvents RUNNING) "evt-9" "build" runningStatus)));
      reflexivity.
  - apply (proj2 (proj2
                    (C10_UpdateStatus_error_names_event_and_job_is_unchecked
                       (sampleEvents RUNNING) "evt-1" "deploy" runningStatus))
             [("build", marshalJob buildJob)]); reflexivity.
Defined.

(** ** Claims about the users store *)

Lemma Lock_no_user (c : memCollection) (id : string) :
  findUser c id = None ->
  UsersStore.Lock {| UsersStore.collection := c |} id
  = ({| UsersStore.collection := c |}, Some (ErrNotFound "User" id)).
Proof.
  intro Hf. unfold UsersStore.Lock. cbn [UpdateOne memCollection_Collection
                                          UsersStore.collection].
  rewrite (memUpdateOne_no_match c [("id", BString id)]
             [("$set", BDoc [("locked", BBool true)])] eq_refl Hf).
  reflexivity.
Qed.

Lemma Unlock_no_user (c : memCollection) (id : string) :
  findUser c id = None ->
  UsersStore.Unlock {| UsersStore.collection := c |} id
  = ({| UsersStore.collection := c |}, Some (ErrNotFound "User" id)).
Proof.
  intro Hf. unfold UsersStore.Unlock. cbn [UpdateOne memCollection_Collection
                                            UsersStore.collection].
  rewrite (memUpdateOne_no_match c [("id", BString id)]
             [("$set", BDoc [("locked", BBool false)])] eq_refl Hf).
  reflexivity.
Qed.

Lemma Lock_user (c : memCollection) (id : string) (d : document) :
  findUser c id = Some d ->
  exists c',
    UsersStore.Lock {| UsersStore.collection := c |} id
    = ({| UsersStore.collection := c' |}, None)
    /\ storedLocked c' id = Some (BBool true).
Proof.
  intro Hf.
  destruct (memUpdateOne_set_event c id "locked" (BBool true) d
              (setField "locked" (BBool true) d) Hf eq_refl eq_refl eq_refl)
    as [c' [Hu Hf']].
  exists c'. split.
  - unfold UsersStore.Lock. cbn [UpdateOne memCollection_Collection
                                  UsersStore.collection].
    rewrite Hu. reflexivity.
  - unfold storedLocked, findUser. unfold findEvent in Hf'. rewrite Hf'.
    apply getField_setField_same.
Qed.

Lemma Unlock_user (c : memCollection) (id : string) (d : document) :
  findUser c id = Some d ->
  exists c',
    UsersStore.Unlock {| UsersStore.collection := c |} id
    = ({| UsersStore.collection := c' |}, None)
    /\ storedLocked c' id = Some (BBool false).
Proof.
  intro Hf.
  destruct (memUpdateOne_set_event c id "locked" (BBool false) d
              (setField "locked" (BBool false) d) Hf eq_refl eq_refl eq_refl)
    as [c' [Hu Hf']].
  exists c'. split.
  - unfold UsersStore.Unlock. cbn [UpdateOne memCollection_Collection
                                    UsersStore.collection].
    rewrite Hu. reflexivity.
  - unfold storedLocked, findUser. unfold findEvent in Hf'. rewrite Hf'.
    apply getField_setField_same.
Qed.

(** The three cases of [TestUsersStoreLock] and [TestUsersStoreUnLock], on
    the mock collection: what [UpdateOneFn] answers decides the outcome. *)
Lemma Lock_Unlock_on_mock (m : mockCollection) (id : string) :
  let filter := [("id", BString id)] in
  let answer (b : bool) :=
    UpdateOneFn m filter [("$set", BDoc [("locked", BBool b)])] in
  let outcome (r : UpdateResult + error) :=
    match r with
    | inr err => Some (Wrapf err "error updating user %q" [id])
    | inl res =>
        if (MatchedCount res =? 0)%Z then Some (ErrNotFound "User" id) else None
    end in
  snd (UsersStore.Lock {| UsersStore.collection := m |} id)
  = outcome (answer true)
  /\ snd (UsersStore.Unlock {| UsersStore.collection := m |} id)
     = outcome (answer false).
Proof.
  unfold UsersStore.Lock, UsersStore.Unlock; simpl.
  split.
  - destruct (UpdateOneFn m _ _) as [res|err]; [|reflexivity].
    destruct (MatchedCount res =? 0)%Z; reflexivity.
  - destruct (UpdateOneFn m _ _) as [res|err]; [|reflexivity].
    destruct (MatchedCount res =? 0)%Z; reflexivity.
Qed.

(** C7.  For a user ID with no matching User document, [Lock] and [Unlock]
    each answer [ErrNotFound] with Type "User" and that ID; when a matching
    document exists both answer nil (and the [locked] flag is set,
    respectively cleared). *)
Theorem C7_Lock_Unlock_NotFound_or_success (c : memCollection) (id : string) :
  (findUser c id = None ->
   snd (UsersStore.Lock {| UsersStore.collection := c |} id)
   = Some (ErrNotFound "User" id)
   /\ snd (UsersStore.Unlock {| UsersStore.collection := c |} id)
      = Some (ErrNotFound "User" id))
  /\ (forall d : document,
        findUser c id = Some d ->
        (exists c',
           UsersStore.Lock {| UsersStore.collection := c |} id
           = ({| UsersStore.collection := c' |}, None)
           /\ storedLocked c' id = Some (BBool true))
        /\ (exists c',
              UsersStore.Unlock {| UsersStore.collection := c |} id
              = ({| UsersStore.collection := c' |}, None)
              /\ storedLocked c' id = Some (BBool false))).
Proof.
  split.
  - intro Hf. rewrite (Lock_no_user c id Hf), (Unlock_no_user c id Hf).
    split; reflexivity.
  - intros d Hf. split.
    + exact (Lock_user c id d Hf).
    + exact (Unlock_user c id d Hf).
Qed.

Lemma C7_witness :
  (snd (UsersStore.Lock {| UsersStore.collection := sampleUsers |}
          "pepper@starkindustries.com")
   = Some (ErrNotFound "User" "pepper@starkindustries.com")
   /\ snd (UsersStore.Unlock {| UsersStore.collection := sampleUsers |}
             "pepper@starkindustries.com")
      = Some (ErrNotFound "User" "pepper@starkindustries.com"))
  /\ exists c',
       UsersStore.Lock {| UsersStore.collection := sampleUsers |}
         "tony@starkindustries.com"
       = ({| UsersStore.collection := c' |}, None)
       /\ storedLocked c' "tony@starkindustries.com" = Some (BBool true).
Proof.
  split.
  - apply (proj1 (C7_Lock_Unlock_NotFound_or_success
                    sampleUsers "pepper@starkindustries.com")).
    reflexivity.
  - apply (proj2 (C7_Lock_Unlock_NotFound_or_success
                    sampleUsers "tony@starkindustries.com")
             [("id", BString "tony@starkindustries.com");
              ("locked", BBool false)]).
    reflexivity.
Defined.

(** ** Claims about the reserved principals *)

Lemma In_two {A : Type} (a b x : A) : In x [a; b] <-> x = a \/ x = b.
Proof.
  simpl. split.
  - intros [<- | [<- | []]]; [left | right]; reflexivity.
  - intros [-> | ->]; [left | right; left]; reflexivity.
Qed.

Lemma RoleWorker_inj (e e' : string) : RoleWorker e' = RoleWorker e -> e' = e.
Proof.
  intro E. injection E as ->. reflexivity.
Qed.

(** C2, as the code has it.  The roles of each reserved principal are fixed:
    root holds the seven administrative roles listed; the scheduler holds
    READER and SCHEDULER and nothing else; the observer holds READER and
    OBSERVER and nothing else; [worker eventID] holds READER and the WORKER
    role scoped to [eventID], and no WORKER role of another Event. *)
Theorem C2_reserved_principal_roles :
  Roles root
  = [RoleAdmin; RoleReader; RoleEventCreator RoleScopeGlobal;
     RoleProjectAdmin RoleScopeGlobal; RoleProjectCreator;
     RoleProjectDeveloper RoleScopeGlobal; RoleProjectUser RoleScopeGlobal]
  /\ (forall r, In r (Roles scheduler) <-> r = RoleReader \/ r = RoleScheduler)
  /\ (forall r, In r (Roles observer) <-> r = RoleReader \/ r = RoleObserver)
  /\ (forall e r,
        In r (Roles (worker e)) <-> r = RoleReader \/ r = RoleWorker e)
  /\ (forall e e', In (RoleWorker e') (Roles (worker e)) <-> e' = e).
Proof.
  split; [reflexivity|].
  split; [intro r; apply In_two|].
  split; [intro r; apply In_two|].
  split; [intros e r; apply In_two|].
  intros e e'. split.
  - intro Hin. apply In_two in Hin as [Hr | Hw]; [discriminate Hr|].
    apply RoleWorker_inj, Hw.
  - intros ->. apply In_two. right. reflexivity.
Qed.

(** C2 at a concrete input: the scheduler also holds READER, so SCHEDULER is
    not its only role; likewise for the observer and for a worker. *)
Lemma C2_counterexample :
  In RoleReader (Roles scheduler)
  /\ RoleReader <> RoleScheduler
  /\ ~ holdsOnly scheduler RoleScheduler
  /\ ~ holdsOnly observer RoleObserver
  /\ ~ holdsOnly (worker "evt-1") (RoleWorker "evt-1").
Proof.
  split; [left; reflexivity|].
  split; [discriminate|].
  repeat split; intro Honly;
    specialize (Honly RoleReader (or_introl eq_refl)); discriminate Honly.
Qed.

Lemma C2_witness :
  In RoleScheduler (Roles scheduler)
  /\ In (RoleWorker "evt-1") (Roles (worker "evt-1"))
  /\ ~ In (RoleWorker "evt-2") (Roles (worker "evt-1")).
Proof.
  destruct C2_reserved_principal_roles as [_ [Hs [_ [_ Hw]]]].
  split; [apply Hs; right; reflexivity|].
  split; [apply Hw; reflexivity|].
  intro Hin. apply Hw in Hin. discriminate Hin.
Defined.

(** ** Claims about the principal on the context *)

Section PrincipalContextProperties.

Variable P : Type.

Lemma Value_not_augmented (ctx : Ctx P) :
  augmented ctx = false -> Value ctx principalContextKey = anyNil.
Proof.
  induction ctx as [|parent IH|parent IH k v]; simpl.
  - reflexivity.
  - exact IH.
  - intro Ha. apply orb_false_iff in Ha as [Hk Ha].
    rewrite Hk. exact (IH Ha).
Qed.

Lemma Value_ContextWithPrincipal (ctx : Ctx P) (p : PrincipalValue P) :
  Value (ContextWithPrincipal ctx p) principalContextKey = toAny p.
Proof.
  reflexivity.
Qed.

(** Cancellation wrappers and values under other keys do not hide the
    principal. *)
Lemma PrincipalFromContext_cancelCtx (ctx : Ctx P) :
  PrincipalFromContext (cancelCtx ctx) = PrincipalFromContext ctx.
Proof.
  reflexivity.
Qed.

Lemma PrincipalFromContext_otherKey (ctx : Ctx P) (name : string) (v : any P) :
  PrincipalFromContext (WithValue ctx (otherKey name) v)
  = PrincipalFromContext ctx.
Proof.
  reflexivity.
Qed.

(** Whatever the assertion returns is not nil. *)
Lemma PrincipalFromContext_not_nil (ctx : Ctx P) :
  PrincipalFromContext ctx <> Returns None.
Proof.
  unfold PrincipalFromContext.
  destruct (Value ctx principalContextKey); discriminate.
Qed.

End PrincipalContextProperties.

Arguments Value_not_augmented {P} ctx.
Arguments PrincipalFromContext_not_nil {P} ctx.

(** C8, as the code has it.  For every context and every principal that is
    not nil, the principal put on the context is the one read back. *)
Theorem C8_principal_round_trip
  (P : Type) (ctx : Ctx P) (p : PrincipalValue P) :
  p <> None ->
  PrincipalFromContext (ContextWithPrincipal ctx p) = Returns p.
Proof.
  intro Hp. destruct p as [x|]; [reflexivity | contradiction].
Qed.

(** C8 at a concrete input: a nil principal put on the context is not read
    back; the type assertion panics. *)
Lemma C8_counterexample :
  PrincipalFromContext
    (ContextWithPrincipal (Background : Ctx workerPrincipal) None)
  = Panics "interface conversion: interface is nil, not authx.Principal"
  /\ PrincipalFromContext
       (ContextWithPrincipal (Background : Ctx workerPrincipal) None)
     <> Returns None.
Proof.
  split; [reflexivity | discriminate].
Qed.

Lemma C8_witness :
  Some (worker "evt-1") <> None
  /\ PrincipalFromContext
       (ContextWithPrincipal
          (cancelCtx (valueCtx Background (otherKey "request-id")
                        (anyOther "42")))
          (Some (worker "evt-1")))
     = Returns (Some (worker "evt-1")).
Proof.
  split; [discriminate|].
  apply (C8_principal_round_trip workerPrincipal); discriminate.
Defined.

(** C9.  On a context that was never augmented with a principal,
    [PrincipalFromContext] panics: the absent value is nil and the unchecked
    type assertion fails on it. *)
Theorem C9_PrincipalFromContext_panics_without_principal
  (P : Type) (ctx : Ctx P) :
  augmented ctx = false ->
  PrincipalFromContext ctx
  = Panics "interface conversion: interface is nil, not authx.Principal"
  /\ panicked (PrincipalFromContext ctx) = true.
Proof.
  intro Ha. unfold PrincipalFromContext.
  rewrite (Value_not_augmented ctx Ha). split; reflexivity.
Qed.

Lemma C9_witness :
  augmented
    (cancelCtx (valueCtx (Background : Ctx workerPrincipal)
                  (otherKey "request-id") (anyOther "42"))) = false
  /\ panicked
       (PrincipalFromContext
          (cancelCtx (valueCtx (Background : Ctx workerPrincipal)
                        (otherKey "request-id") (anyOther "42")))) = true.
Proof.
  split; [reflexivity|].
  apply (C9_PrincipalFromContext_panics_without_principal workerPrincipal).
  reflexivity.
Defined.

(** ** Claims about the role-assignments service *)

Ltac run_op :=
  unfold Grant, Revoke, List_, checkPrincipal, callStore,
    bind, access, ret, panic;
  simpl;
  repeat match goal with
    | |- context [authorize ?r ?c ?l] => destruct (authorize r c l); simpl
    | |- context [String.eqb ?a ?b] => destruct (String.eqb a b); simpl
    | |- context [usersStore ?r] => destruct (usersStore r); simpl
    | |- context [serviceAccountsStore ?r] =>
        destruct (serviceAccountsStore r); simpl
    | |- context [roleAssignmentsStore ?r] =>
        destruct (roleAssignmentsStore r); simpl
    | |- context [MockUsersStore_GetFn ?s ?i] =>
        destruct (MockUsersStore_GetFn s i); simpl
    | |- context [MockServiceAccountStore_GetFn ?s ?i] =>
        destruct (MockServiceAccountStore_GetFn s i); simpl
    | |- context [GrantFn ?s ?a] => destruct (GrantFn s a); simpl
    | |- context [RevokeFn ?s ?a] => destruct (RevokeFn s a); simpl
    | |- context [ListFn ?s] => destruct (ListFn s); simpl
    end.

Section RoleAssignmentsServiceProperties.

Variable ctxT : Type.
Variable r : roleAssignmentsService ctxT.
Variable ctx : ctxT.

(** The authorization check is the first thing each operation does. *)
Lemma Grant_checks_first (ra : RoleAssignment) :
  exists rest, fst (Grant r ctx ra []) = AuthorizeCheck [RoleAdmin] :: rest.
Proof.
  run_op; eexists; reflexivity.
Qed.

Lemma Revoke_checks_first (ra : RoleAssignment) :
  exists rest, fst (Revoke r ctx ra []) = AuthorizeCheck [RoleAdmin] :: rest.
Proof.
  run_op; eexists; reflexivity.
Qed.

Lemma List_checks_first :
  exists rest, fst (List_ r ctx []) = AuthorizeCheck [RoleReader] :: rest.
Proof.
  run_op; eexists; reflexivity.
Qed.

Lemma Grant_unauthorized (ra : RoleAssignment) (err : error) :
  authorize r ctx [RoleAdmin] = Some err ->
  Grant r ctx ra [] = ([AuthorizeCheck [RoleAdmin]], Returns (Some err)).
Proof.
  intro Ha. unfold Grant, bind, access, ret. simpl. rewrite Ha. reflexivity.
Qed.

Lemma Revoke_unauthorized (ra : RoleAssignment) (err : error) :
  authorize r ctx [RoleAdmin] = Some err ->
  Revoke r ctx ra [] = ([AuthorizeCheck [RoleAdmin]], Returns (Some err)).
Proof.
  intro Ha. unfold Revoke, bind, access, ret. simpl. rewrite Ha. reflexivity.
Qed.

Lemma List_unauthorized (err : error) :
  authorize r ctx [RoleReader] = Some err ->
  List_ r ctx [] = ([AuthorizeCheck [RoleReader]], Returns ([], Some err)).
Proof.
  intro Ha. unfold List_, bind, access, ret. simpl. rewrite Ha. reflexivity.
Qed.

End RoleAssignmentsServiceProperties.

(** C6.  [Grant], [List] and [Revoke] each perform the authorization check
    before anything else, and when the check fails with an authorization
    error they return that error having called none of the users,
    service-accounts and role-assignments stores. *)
Theorem C6_authorization_precedes_store_access
  (ctxT : Type) (r : roleAssignmentsService ctxT) (ctx : ctxT)
  (ra : RoleAssignment) :
  ((exists rest, fst (Grant r ctx ra []) = AuthorizeCheck [RoleAdmin] :: rest)
   /\ (exists rest, fst (List_ r ctx []) = AuthorizeCheck [RoleReader] :: rest)
   /\ (exists rest,
         fst (Revoke r ctx ra []) = AuthorizeCheck [RoleAdmin] :: rest))
  /\ (authorize r ctx [RoleAdmin] = Some ErrAuthorization ->
      (snd (Grant r ctx ra []) = Returns (Some ErrAuthorization)
       /\ filter isStoreAccess (fst (Grant r ctx ra [])) = [])
      /\ (snd (Revoke r ctx ra []) = Returns (Some ErrAuthorization)
          /\ filter isStoreAccess (fst (Revoke r ctx ra [])) = []))
  /\ (authorize r ctx [RoleReader] = Some ErrAuthorization ->
      snd (List_ r ctx []) = Returns ([], Some ErrAuthorization)
      /\ filter isStoreAccess (fst (List_ r ctx [])) = []).
Proof.
  split; [|split].
  - split; [apply Grant_checks_first|].
    split; [apply List_checks_first | apply Revoke_checks_first].
  - intro Ha.
    rewrite (Grant_unauthorized ctxT r ctx ra _ Ha).
    rewrite (Revoke_unauthorized ctxT r ctx ra _ Ha).
    repeat split; reflexivity.
  - intro Ha. rewrite (List_unauthorized ctxT r ctx _ Ha).
    split; reflexivity.
Qed.

(** The "unauthorized" cases of the service's tests: [NeverAuthorize] and no
    stores; any store call would be a nil dereference. *)
Lemma C6_witness :
  (snd (Grant unauthorizedService tt sampleRoleAssignment [])
   = Returns (Some ErrAuthorization)
   /\ filter isStoreAccess
        (fst (Grant unauthorizedService tt sampleRoleAssignment [])) = [])
  /\ (snd (Revoke unauthorizedService tt sampleRoleAssignment [])
      = Returns (Some ErrAuthorization)
      /\ filter isStoreAccess
           (fst (Revoke unauthorizedService tt sampleRoleAssignment [])) = [])
  /\ (snd (List_ unauthorizedService tt [])
      = Returns ([], Some ErrAuthorization)
      /\ filter isStoreAccess (fst (List_ unauthorizedService tt [])) = []).
Proof.
  destruct (C6_authorization_precedes_store_access
              unit unauthorizedService tt sampleRoleAssignment)
    as [_ [Hgr Hl]].
  destruct (Hgr eq_refl) as [Hg Hr].
  split; [exact Hg|]. split; [exact Hr|]. exact (Hl eq_refl).
Defined.

(** The remaining cases of [TestRoleAssignmentsServiceGrant]: with
    [AlwaysAuthorize], a failing users store is reported as "error
    retrieving user", a failing role-assignments store as "error granting
    role", and otherwise the assignment is granted. *)
Lemma Grant_test_cases (userErr grantErr : error) :
  let user := {| PrincipalReference_Type := PrincipalTypeUser;
                 PrincipalReference_ID := "foo" |} in
  let sa := {| PrincipalReference_Type := PrincipalTypeServiceAccount;
               PrincipalReference_ID := "foo" |} in
  let found :=
    Some {| MockServiceAccountStore_GetFn :=
              fun id => inl {| ServiceAccount_ID := id |} |} in
  snd (Grant (ctxT := unit)
         {| authorize := AlwaysAuthorize;
            usersStore :=
              Some {| MockUsersStore_GetFn := fun _ => inr userErr |};
            serviceAccountsStore := None;
            roleAssignmentsStore := None |}
         tt
         {| RoleAssignment_Role := RoleAdmin;
            RoleAssignment_Principal := user |} [])
  = Returns (Some (Wrapf userErr "error retrieving user %q from store" ["foo"]))
  /\ snd (Grant (ctxT := unit)
            {| authorize := AlwaysAuthorize;
               usersStore := None;
               serviceAccountsStore := found;
               roleAssignmentsStore :=
                 Some {| GrantFn := fun _ => Some grantErr;
                         ListFn := inl [];
                         RevokeFn := fun _ => None |} |}
            tt
            {| RoleAssignment_Role := RoleAdmin;
               RoleAssignment_Principal := sa |} [])
     = Returns (Some (Wrapf grantErr "error granting role" ["foo"]))
  /\ Grant (ctxT := unit)
       {| authorize := AlwaysAuthorize;
          usersStore := None;
          serviceAccountsStore := found;
          roleAssignmentsStore :=
            Some {| GrantFn := fun _ => None;
                    ListFn := inl [];
                    RevokeFn := fun _ => None |} |}
       tt
       {| RoleAssignment_Role := RoleAdmin;
          RoleAssignment_Principal := sa |} []
     = ([AuthorizeCheck [RoleAdmin];
         ServiceAccountsStoreGet "foo";
         RoleAssignmentsStoreGrant
           {| RoleAssignment_Role := RoleAdmin;
              RoleAssignment_Principal := sa |}],
        Returns None).
Proof.
  repeat split; reflexivity.
Qed.

(** ** Marshalling *)

Lemma unmarshal_marshalJobStatus (s : JobStatus) :
  unmarshalJobStatus (marshalJobStatus s) = Some s.
Proof.
  destruct s as [ph [st|] [en|]]; destruct ph; reflexivity.
Qed.

Lemma marshalJobStatus_inj (s s' : JobStatus) :
  marshalJobStatus s = marshalJobStatus s' -> s = s'.
Proof.
  intro E. apply (f_equal unmarshalJobStatus) in E.
  rewrite !unmarshal_marshalJobStatus in E. injection E as ->. reflexivity.
Qed.

(* ================================================================== *)
(** * Further properties of the code *)

(** ** The principal on a derived context *)

Lemma Value_derive {P : Type} (ls : list (layer P)) (ctx : Ctx P) :
  Value (derive ls ctx) principalContextKey = Value ctx principalContextKey.
Proof.
  induction ls as [|[|name val] ls IH]; simpl;
    [reflexivity | exact IH | exact IH].
Qed.

Lemma augmented_derive {P : Type} (ls : list (layer P)) (ctx : Ctx P) :
  augmented (derive ls ctx) = augmented ctx.
Proof.
  induction ls as [|[|name val] ls IH]; simpl;
    [reflexivity | exact IH | exact IH].
Qed.

(** X1.  Cancellation wrappers and values that other packages attach under
    their own keys neither hide nor supply a principal: the principal read
    from the derived context is the one of the context below, so a principal
    put on a context is read back through any number of such layers. *)
Theorem principal_survives_derivation
  (P : Type) (ls : list (layer P)) (ctx : Ctx P) :
  PrincipalFromContext (derive ls ctx) = PrincipalFromContext ctx
  /\ augmented (derive ls ctx) = augmented ctx
  /\ forall x : P,
       PrincipalFromContext (derive ls (ContextWithPrincipal ctx (Some x)))
       = Returns (Some x).
Proof.
  split; [|split].
  - unfold PrincipalFromContext. rewrite Value_derive. reflexivity.
  - apply augmented_derive.
  - intro x. unfold PrincipalFromContext. rewrite Value_derive. reflexivity.
Qed.

(** X2.  The principal put on the context last is the one in force, through
    any layers below and above it; and putting a nil principal on a context
    that carries one makes [PrincipalFromContext] panic: the earlier
    principal is masked, not restored. *)
Theorem latest_principal_wins
  (P : Type) (below above : list (layer P)) (ctx : Ctx P)
  (p : PrincipalValue P) :
  (forall y : P,
     PrincipalFromContext
       (derive above
          (ContextWithPrincipal
             (derive below (ContextWithPrincipal ctx p)) (Some y)))
     = Returns (Some y))
  /\ panicked
       (PrincipalFromContext
          (derive above
             (ContextWithPrincipal
                (derive below (ContextWithPrincipal ctx p)) None)))
     = true.
Proof.
  split; [intro y|]; unfold PrincipalFromContext; rewrite Value_derive;
    reflexivity.
Qed.

(** X3.  [PrincipalFromContext] never returns nil, and it returns only on a
    context that was augmented with a principal. *)
Theorem PrincipalFromContext_returns_only_a_principal
  (P : Type) (ctx : Ctx P) (p : PrincipalValue P) :
  PrincipalFromContext ctx = Returns p ->
  augmented ctx = true /\ exists x : P, p = Some x.
Proof.
  intro Hr. split.
  - destruct (augmented ctx) eqn:Ha; [reflexivity|].
    unfold PrincipalFromContext in Hr.
    rewrite (Value_not_augmented ctx Ha) in Hr. discriminate Hr.
  - unfold PrincipalFromContext in Hr.
    destruct (Value ctx principalContextKey) as [|x|s]; try discriminate Hr.
    injection Hr as <-. exists x. reflexivity.
Qed.

Lemma PrincipalFromContext_returns_only_a_principal_witness :
  augmented
    (cancelCtx
       (ContextWithPrincipal (Background : Ctx schedulerPrincipal)
          (Some scheduler))) = true
  /\ exists x : schedulerPrincipal, Some scheduler = Some x.
Proof.
  apply (PrincipalFromContext_returns_only_a_principal schedulerPrincipal
           (cancelCtx (ContextWithPrincipal Background (Some scheduler)))
           (Some scheduler)).
  reflexivity.
Defined.

(** ** The reserved principals against each other *)

(** X4.  The abilities the source calls unique are exclusive among the
    reserved principals: SCHEDULER is held by the scheduler alone, OBSERVER
    by the observer alone, and the WORKER role of an Event by that Event's
    worker alone (not by the worker of another Event, and not by root). *)
Theorem component_roles_are_exclusive (p : namedPrincipal) :
  (In RoleScheduler (rolesOf p) <-> p = namedScheduler)
  /\ (In RoleObserver (rolesOf p) <-> p = namedObserver)
  /\ (forall e, In (RoleWorker e) (rolesOf p) <-> p = namedWorker e).
Proof.
  split; [|split; [|intro e]]; split.
  - destruct p; simpl; intro Hin; try reflexivity;
      repeat (destruct Hin as [Hin | Hin]; try discriminate Hin);
      contradiction.
  - intros ->. simpl. right; left. reflexivity.
  - destruct p; simpl; intro Hin; try reflexivity;
      repeat (destruct Hin as [Hin | Hin]; try discriminate Hin);
      contradiction.
  - intros ->. simpl. right; left. reflexivity.
  - destruct p as [| | |e0]; simpl; intro Hin;
      repeat (destruct Hin as [Hin | Hin]; try discriminate Hin);
      try contradiction.
    injection Hin as ->. reflexivity.
  - intros ->. simpl. right; left. reflexivity.
Qed.

(** X5.  Every reserved principal holds READER, and READER is the only role
    root shares with the scheduler, the observer or a worker: none of these
    holds any of root's administrative roles. *)
Theorem only_READER_is_shared_with_root (p : namedPrincipal) (r : Role) :
  In RoleReader (rolesOf p)
  /\ (In r (rolesOf p) -> In r (rolesOf namedRoot) ->
      p = namedRoot \/ r = RoleReader).
Proof.
  split.
  - destruct p; simpl; auto.
  - destruct p as [| | |e]; simpl; intros Hp Hroot; [left; reflexivity | | |];
      right;
      (destruct Hp as [<- | [<- | []]]; [reflexivity|]);
      repeat (destruct Hroot as [Hroot | Hroot]; try discriminate Hroot);
      contradiction.
Qed.

Lemma only_READER_is_shared_with_root_witness :
  In RoleReader (rolesOf (namedWorker "evt-1"))
  /\ (namedWorker "evt-1" = namedRoot \/ RoleReader = RoleReader).
Proof.
  destruct (only_READER_is_shared_with_root (namedWorker "evt-1") RoleReader)
    as [Hin Hshared].
  split; [exact Hin|].
  apply Hshared; simpl; auto.
Defined.

(** ** Writes of the jobs store, one after another *)

Lemma splitDots_worker_jobs (s : string) :
  splitDots ("worker.jobs." ++ s) = "worker" :: "jobs" :: splitDots s.
Proof.
  change ("worker.jobs." ++ s)
    with ("worker" ++ String "." ("jobs" ++ String "." s)).
  rewrite splitDots_app_dot by reflexivity.
  rewrite splitDots_app_dot by reflexivity.
  reflexivity.
Qed.

Lemma setField_overwrite (k : string) (v v' : bson) (d : document) :
  setField k v' (setField k v d) = setField k v' d.
Proof.
  induction d as [|[k0 v0] d IH]; simpl.
  - rewrite String.eqb_refl. reflexivity.
  - destruct (String.eqb k k0) eqn:E; simpl.
    + rewrite String.eqb_refl. reflexivity.
    + rewrite E, IH. reflexivity.
Qed.

(** A second write along the same path sees what the first one saw. *)
Lemma setPath_overwrite (path : list string) (v1 v2 : bson) :
  forall d d1,
    setPath path v1 d = Some d1 ->
    setPath path v2 d1 = setPath path v2 d
    /\ exists d2, setPath path v2 d = Some d2.
Proof.
  induction path as [|k rest IH]; intros d d1; simpl; [discriminate|].
  destruct (String.eqb k ""); [discriminate|].
  destruct rest as [|k2 rest].
  - intro Hs. injection Hs as <-. rewrite setField_overwrite.
    split; [reflexivity | eexists; reflexivity].
  - destruct (getField k d) as [[| | | |sub]|] eqn:Hk; try discriminate.
    + destruct (setPath (k2 :: rest) v1 sub) as [sub1|] eqn:E1;
        [|discriminate].
      intro Hs. injection Hs as <-.
      rewrite getField_setField_same.
      destruct (IH _ _ E1) as [Hsame [sub2 Hsub2]].
      rewrite Hsame, Hsub2, setField_overwrite.
      split; [reflexivity | eexists; reflexivity].
    + destruct (setPath (k2 :: rest) v1 []) as [sub1|] eqn:E1;
        [|discriminate].
      intro Hs. injection Hs as <-.
      rewrite getField_setField_same.
      destruct (IH _ _ E1) as [Hsame [sub2 Hsub2]].
      rewrite Hsame, Hsub2, setField_overwrite.
      split; [reflexivity | eexists; reflexivity].
Qed.

Lemma memUpdateFirst_overwrite (c c1 : memCollection)
  (filter u1 u2 : document) :
  (forall d d1,
      matches filter d = true ->
      applyUpdate u1 d = Some d1 ->
      matches filter d1 = true
      /\ exists d2,
           applyUpdate u2 d = Some d2 /\ applyUpdate u2 d1 = Some d2) ->
  memUpdateFirst c filter u1 = (c1, inl {| MatchedCount := 1 |}) ->
  memUpdateFirst c1 filter u2 = memUpdateFirst c filter u2.
Proof.
  intro Hu. revert c1.
  induction c as [|d c IH]; intro c1; simpl; [discriminate|].
  destruct (matches filter d) eqn:Em.
  - destruct (applyUpdate u1 d) as [d1|] eqn:E1; [|discriminate].
    intro Hc. injection Hc as <-.
    destruct (Hu d d1 Em E1) as [Hm1 [d2 [Hd Hd1]]].
    simpl. rewrite Hm1, Hd1, Hd. reflexivity.
  - destruct (memUpdateFirst c filter u1) as [c' r] eqn:Ec.
    intro Hc. injection Hc as <- ->.
    simpl. rewrite Em. rewrite (IH c' eq_refl). reflexivity.
Qed.

Lemma memUpdateOne_overwrite (c c1 : memCollection) (filter u1 u2 : document) :
  (forall d d1,
      matches filter d = true ->
      applyUpdate u1 d = Some d1 ->
      matches filter d1 = true
      /\ exists d2,
           applyUpdate u2 d = Some d2 /\ applyUpdate u2 d1 = Some d2) ->
  validUpdate u2 = validUpdate u1 ->
  memUpdateOne c filter u1 = (c1, inl {| MatchedCount := 1 |}) ->
  memUpdateOne c1 filter u2 = memUpdateOne c filter u2.
Proof.
  intros Hu Hv. unfold memUpdateOne. rewrite Hv.
  destruct (validUpdate u1); [|discriminate].
  apply memUpdateFirst_overwrite, Hu.
Qed.

(** Both updates of the jobs store write below [worker], so they keep the
    [id] of the document and with it the match of the filter. *)
Lemma set_below_worker_keeps_id (s : string) (v : bson) (d d' : document) :
  applyUpdate [("$set", BDoc [("worker.jobs." ++ s, v)])] d = Some d' ->
  getField "id" d' = getField "id" d.
Proof.
  rewrite applyUpdate_set_one, splitDots_worker_jobs. intro Hs.
  exact (setPath_other_field _ _ "id" _ _ Hs eq_refl).
Qed.

Lemma set_below_worker_overwrite (id s : string) (v1 v2 : bson)
  (d d1 : document) :
  matches [("id", BString id)] d = true ->
  applyUpdate [("$set", BDoc [("worker.jobs." ++ s, v1)])] d = Some d1 ->
  matches [("id", BString id)] d1 = true
  /\ exists d2,
       applyUpdate [("$set", BDoc [("worker.jobs." ++ s, v2)])] d = Some d2
       /\ applyUpdate [("$set", BDoc [("worker.jobs." ++ s, v2)])] d1 = Some d2.
Proof.
  intros Hm H1. split.
  - rewrite (matches_same_id id d d1); [exact Hm|].
    exact (set_below_worker_keeps_id s v1 d d1 H1).
  - rewrite !applyUpdate_set_one in *.
    destruct (setPath_overwrite _ v1 v2 _ _ H1) as [Hsame [d2 Hd2]].
    exists d2. split; [exact Hd2|]. rewrite Hsame. exact Hd2.
Qed.

Lemma UpdateStatus_nil_inv (c c1 : memCollection) (eventID jobName : string)
  (status : JobStatus) :
  UpdateStatus {| collection := c |} eventID jobName status
  = ({| collection := c1 |}, None) ->
  memUpdateOne c [("id", BString eventID)]
    [("$set",
      BDoc [("worker.jobs." ++ jobName ++ ".status",
             marshalJobStatus status)])]
  = (c1, inl {| MatchedCount := 1 |}).
Proof.
  intro Hr.
  destruct (memUpdateOne_cases c [("id", BString eventID)]
              [("$set",
                BDoc [("worker.jobs." ++ jobName ++ ".status",
                       marshalJobStatus status)])])
    as [Hu | [Hu | [c' Hu]]];
    rewrite (UpdateStatus_outcome (HC := memCollection_Collection)
               {| collection := c |} eventID jobName status _ _ Hu) in Hr;
    try discriminate Hr.
  injection Hr as <-. exact Hu.
Qed.

Lemma Create_nil_inv (c c1 : memCollection) (eventID jobName : string)
  (job : Job) :
  Create {| collection := c |} eventID jobName job
  = ({| collection := c1 |}, None) ->
  memUpdateOne c [("id", BString eventID)]
    [("$set", BDoc [("worker.jobs." ++ jobName, marshalJob job)])]
  = (c1, inl {| MatchedCount := 1 |}).
Proof.
  intro Hr.
  destruct (memUpdateOne_cases c [("id", BString eventID)]
              [("$set", BDoc [("worker.jobs." ++ jobName, marshalJob job)])])
    as [Hu | [Hu | [c' Hu]]];
    rewrite (Create_outcome (HC := memCollection_Collection)
               {| collection := c |} eventID jobName job _ _ Hu) in Hr;
    try discriminate Hr.
  injection Hr as <-. exact Hu.
Qed.

(** X6.  Status updates are not cumulative: once [UpdateStatus] has
    succeeded, a further [UpdateStatus] of the same Job gives exactly what
    it would have given on the store before, so the later status replaces
    the earlier one and repeating an update changes nothing.  This holds for
    every job name, valid or not. *)
Theorem UpdateStatus_last_write_wins
  (c c1 : memCollection) (eventID jobName : string) (s1 s2 : JobStatus) :
  UpdateStatus {| collection := c |} eventID jobName s1
  = ({| collection := c1 |}, None) ->
  UpdateStatus {| collection := c1 |} eventID jobName s2
  = UpdateStatus {| collection := c |} eventID jobName s2
  /\ UpdateStatus {| collection := c1 |} eventID jobName s1
     = ({| collection := c1 |}, None).
Proof.
  intro H1. pose proof (UpdateStatus_nil_inv _ _ _ _ _ H1) as Hu.
  assert (Hover : forall s,
             memUpdateOne c1 [("id", BString eventID)]
               [("$set",
                 BDoc [("worker.jobs." ++ jobName ++ ".status",
                        marshalJobStatus s)])]
             = memUpdateOne c [("id", BString eventID)]
                 [("$set",
                   BDoc [("worker.jobs." ++ jobName ++ ".status",
                          marshalJobStatus s)])]).
  { intro s.
    apply (memUpdateOne_overwrite c c1 [("id", BString eventID)]
             [("$set",
               BDoc [("worker.jobs." ++ jobName ++ ".status",
                      marshalJobStatus s1)])]
             [("$set",
               BDoc [("worker.jobs." ++ jobName ++ ".status",
                      marshalJobStatus s)])]);
      [|reflexivity | exact Hu].
    intros d d1 Hm Hd.
    exact (set_below_worker_overwrite eventID (jobName ++ ".status")
             _ _ d d1 Hm Hd). }
  assert (Hgen : forall s,
             UpdateStatus {| collection := c1 |} eventID jobName s
             = UpdateStatus {| collection := c |} eventID jobName s).
  { intro s. unfold UpdateStatus.
    cbn [UpdateOne memCollection_Collection collection].
    rewrite (Hover s). reflexivity. }
  split; [apply Hgen|]. rewrite Hgen. exact H1.
Qed.

Lemma UpdateStatus_last_write_wins_witness :
  let c1 :=
    collection (fst (UpdateStatus {| collection := sampleEvents RUNNING |}
                       "evt-1" "build" runningStatus)) in
  UpdateStatus {| collection := c1 |} "evt-1" "build" succeededStatus
  = UpdateStatus {| collection := sampleEvents RUNNING |}
      "evt-1" "build" succeededStatus
  /\ UpdateStatus {| collection := c1 |} "evt-1" "build" runningStatus
     = ({| collection := c1 |}, None).
Proof.
  apply (UpdateStatus_last_write_wins (sampleEvents RUNNING)).
  reflexivity.
Defined.

(** X7.  Likewise for [Create]: a later [Create] of the same job name gives
    what it would have given on the store before, so the Job created last
    is the one stored, and creating the same Job twice is the same as
    creating it once. *)
Theorem Create_last_write_wins
  (c c1 : memCollection) (eventID jobName : string) (job1 job2 : Job) :
  Create {| collection := c |} eventID jobName job1
  = ({| collection := c1 |}, None) ->
  Create {| collection := c1 |} eventID jobName job2
  = Create {| collection := c |} eventID jobName job2
  /\ Create {| collection := c1 |} eventID jobName job1
     = ({| collection := c1 |}, None).
Proof.
  intro H1. pose proof (Create_nil_inv _ _ _ _ _ H1) as Hu.
  assert (Hgen : forall job,
             Create {| collection := c1 |} eventID jobName job
             = Create {| collection := c |} eventID jobName job).
  { intro job. unfold Create.
    cbn [UpdateOne memCollection_Collection collection].
    rewrite (memUpdateOne_overwrite c c1 [("id", BString eventID)]
               [("$set", BDoc [("worker.jobs." ++ jobName, marshalJob job1)])]
               [("$set", BDoc [("worker.jobs." ++ jobName, marshalJob job)])]
               (fun d d1 Hm Hd =>
                  set_below_worker_overwrite eventID jobName
                    (marshalJob job1) (marshalJob job) d d1 Hm Hd)
               eq_refl Hu).
    reflexivity. }
  split; [apply Hgen|]. rewrite Hgen. exact H1.
Qed.

Lemma Create_last_write_wins_witness :
  let c1 :=
    collection (fst (Create {| collection := sampleEvents RUNNING |}
                       "evt-1" "test" buildJob)) in
  Create {| collection := c1 |} "evt-1" "test" rebuildJob
  = Create {| collection := sampleEvents RUNNING |} "evt-1" "test" rebuildJob
  /\ Create {| collection := c1 |} "evt-1" "test" buildJob
     = ({| collection := c1 |}, None).
Proof.
  apply (Create_last_write_wins (sampleEvents RUNNING)).
  reflexivity.
Defined.

(** ** What the jobs store leaves alone *)

Lemma memUpdateFirst_frame (c : memCollection) (eventID : string)
  (update : document) :
  (forall d d',
      applyUpdate update d = Some d' -> getField "id" d' = getField "id" d) ->
  documentIDs (fst (memUpdateFirst c [("id", BString eventID)] update))
  = documentIDs c
  /\ forall e',
       e' <> eventID ->
       findEvent (fst (memUpdateFirst c [("id", BString eventID)] update)) e'
       = findEvent c e'.
Proof.
  intro Hid. unfold documentIDs, findEvent.
  induction c as [|d c [IHids IHfind]]; [split; reflexivity|].
  cbn [memUpdateFirst].
  destruct (matches [("id", BString eventID)] d) eqn:Em.
  - destruct (applyUpdate update d) as [d'|] eqn:Eu; cbn [fst map find];
      [|split; reflexivity].
    pose proof (Hid d d' Eu) as Hsame. split.
    + rewrite Hsame. reflexivity.
    + intros e' Hne. rewrite (matches_same_id e' d d' Hsame).
      destruct (matches [("id", BString e')] d) eqn:Em'; [|reflexivity].
      apply matches_id in Em. apply matches_id in Em'.
      rewrite Em in Em'. injection Em' as ->. contradiction.
  - destruct (memUpdateFirst c [("id", BString eventID)] update) as [c' r].
    cbn [fst map find] in *. split.
    + rewrite IHids. reflexivity.
    + intros e' Hne. rewrite (IHfind e' Hne). reflexivity.
Qed.

Lemma memUpdateOne_frame (c : memCollection) (eventID : string)
  (update : document) :
  (forall d d',
      applyUpdate update d = Some d' -> getField "id" d' = getField "id" d) ->
  documentIDs (fst (memUpdateOne c [("id", BString eventID)] update))
  = documentIDs c
  /\ forall e',
       e' <> eventID ->
       findEvent (fst (memUpdateOne c [("id", BString eventID)] update)) e'
       = findEvent c e'.
Proof.
  intro Hid. unfold memUpdateOne. destruct (validUpdate update).
  - apply memUpdateFirst_frame, Hid.
  - split; [reflexivity | intros e' _; reflexivity].
Qed.

Lemma Create_collection (c : memCollection) (eventID jobName : string)
  (job : Job) :
  collection (fst (Create {| collection := c |} eventID jobName job))
  = fst (memUpdateOne c [("id", BString eventID)]
           [("$set", BDoc [("worker.jobs." ++ jobName, marshalJob job)])]).
Proof.
  unfold Create. cbn [UpdateOne memCollection_Collection collection].
  destruct (memUpdateOne c _ _) as [c' [res|err]]; [|reflexivity].
  destruct (MatchedCount res =? 0)%Z; reflexivity.
Qed.

Lemma UpdateStatus_collection (c : memCollection) (eventID jobName : string)
  (status : JobStatus) :
  collection (fst (UpdateStatus {| collection := c |} eventID jobName status))
  = fst (memUpdateOne c [("id", BString eventID)]
           [("$set",
             BDoc [("worker.jobs." ++ jobName ++ ".status",
                    marshalJobStatus status)])]).
Proof.
  unfold UpdateStatus. cbn [UpdateOne memCollection_Collection collection].
  destruct (memUpdateOne c _ _) as [c' [res|err]]; [|reflexivity].
  destruct (MatchedCount res =? 0)%Z; reflexivity.
Qed.

(** X8.  Whatever they answer, [Create] and [UpdateStatus] keep the IDs of
    the stored documents as they are (no document is inserted, removed or
    re-identified) and leave every Event other than the one named by the
    event ID untouched. *)
Theorem jobsStore_leaves_other_events_alone
  (c : memCollection) (eventID jobName : string) (job : Job)
  (status : JobStatus) :
  let afterCreate :=
    collection (fst (Create {| collection := c |} eventID jobName job)) in
  let afterUpdate :=
    collection
      (fst (UpdateStatus {| collection := c |} eventID jobName status)) in
  documentIDs afterCreate = documentIDs c
  /\ documentIDs afterUpdate = documentIDs c
  /\ forall e',
       e' <> eventID ->
       findEvent afterCreate e' = findEvent c e'
       /\ findEvent afterUpdate e' = findEvent c e'.
Proof.
  intros afterCreate afterUpdate. subst afterCreate afterUpdate.
  rewrite Create_collection, UpdateStatus_collection.
  destruct (memUpdateOne_frame c eventID
              [("$set", BDoc [("worker.jobs." ++ jobName, marshalJob job)])])
    as [Hids1 Hfind1].
  { intros d d'. apply set_below_worker_keeps_id. }
  destruct (memUpdateOne_frame c eventID
              [("$set",
                BDoc [("worker.jobs." ++ jobName ++ ".status",
                       marshalJobStatus status)])])
    as [Hids2 Hfind2].
  { intros d d'. apply (set_below_worker_keeps_id (jobName ++ ".status")). }
  split; [exact Hids1|]. split; [exact Hids2|].
  intros e' Hne. split; [apply Hfind1 | apply Hfind2]; exact Hne.
Qed.

Lemma jobsStore_leaves_other_events_alone_witness :
  findEvent
    (collection (fst (Create {| collection := sampleEvents RUNNING |}
                        "evt-1" "test" rebuildJob))) "evt-0"
  = findEvent (sampleEvents RUNNING) "evt-0"
  /\ findEvent
       (collection (fst (UpdateStatus {| collection := sampleEvents RUNNING |}
                           "evt-1" "build" runningStatus))) "evt-0"
     = findEvent (sampleEvents RUNNING) "evt-0".
Proof.
  destruct (jobsStore_leaves_other_events_alone (sampleEvents RUNNING)
              "evt-1" "test" rebuildJob runningStatus) as [_ [_ Hother]].
  destruct (Hother "evt-0") as [Hc _]; [discriminate|].
  destruct (jobsStore_leaves_other_events_alone (sampleEvents RUNNING)
              "evt-1" "build" rebuildJob runningStatus) as [_ [_ Hother']].
  destruct (Hother' "evt-0") as [_ Hu]; [discriminate|].
  split; [exact Hc | exact Hu].
Defined.

Lemma storedJob_via_jobs (c : memCollection) (eventID jobName : string) :
  storedJob c eventID jobName
  = match storedJobs c eventID with
    | Some (BDoc js) => getField jobName js
    | _ => None
    end.
Proof.
  unfold storedJob, storedJobs. destruct (findEvent c eventID) as [d|];
    [|reflexivity].
  simpl. destruct (getField "worker" d) as [[| | | |w]|]; reflexivity.
Qed.

Lemma UpdateStatus_stores_jobs (c : memCollection) (eventID jobName : string)
  (status : JobStatus) (js : document) :
  validJobName jobName = true ->
  storedJobs c eventID = Some (BDoc js) ->
  match getField jobName js with
  | None | Some (BDoc _) => True
  | Some _ => False
  end ->
  exists c',
    UpdateStatus {| collection := c |} eventID jobName status
    = ({| collection := c' |}, None)
    /\ storedJobs c' eventID
       = Some (BDoc (setField jobName
                       (BDoc (setField "status" (marshalJobStatus status)
                                match getField jobName js with
                                | Some (BDoc j) => j
                                | _ => []
                                end)) js))
    /\ storedWorkerPhase c' eventID = storedWorkerPhase c eventID.
Proof.
  intros Hn Hjs Hjob.
  destruct (storedJobs_shape _ _ _ Hjs) as [d [w [Hf [Hw Hj]]]].
  pose proof (setPath_job_status jobName (marshalJobStatus status) d w js
                (validJobName_nonempty _ Hn) Hw Hj Hjob) as Hs.
  destruct (UpdateStatus_matched c eventID jobName status d _ Hn Hf Hs)
    as [c' [Hc Hf']].
  exists c'. split; [exact Hc|].
  destruct (jobs_after_write d w js
              (setField jobName
                 (BDoc (setField "status" (marshalJobStatus status)
                          match getField jobName js with
                          | Some (BDoc j) => j
                          | _ => []
                          end)) js) Hw Hj) as [Hjobs Hphase].
  unfold storedJobs, storedWorkerPhase. rewrite Hf', Hf.
  split; [exact Hjobs | exact Hphase].
Qed.

(** X9.  Within the matched Event a successful [Create] or [UpdateStatus]
    of one Job leaves every other Job of the Worker, and the Worker's own
    phase, as stored. *)
Theorem jobsStore_leaves_other_jobs_alone
  (c : memCollection) (eventID jobName other : string) (job : Job)
  (status : JobStatus) (js : document) :
  validJobName jobName = true ->
  storedJobs c eventID = Some (BDoc js) ->
  other <> jobName ->
  (exists c',
     Create {| collection := c |} eventID jobName job
     = ({| collection := c' |}, None)
     /\ storedJob c' eventID other = storedJob c eventID other
     /\ storedWorkerPhase c' eventID = storedWorkerPhase c eventID)
  /\ (getField jobName js = None
      \/ (exists j, getField jobName js = Some (BDoc j)) ->
      exists c',
        UpdateStatus {| collection := c |} eventID jobName status
        = ({| collection := c' |}, None)
        /\ storedJob c' eventID other = storedJob c eventID other
        /\ storedWorkerPhase c' eventID = storedWorkerPhase c eventID).
Proof.
  intros Hn Hjs Hne.
  assert (Hk : String.eqb other jobName = false)
    by (apply String.eqb_neq; exact Hne).
  split.
  - destruct (Create_stores c eventID jobName job js Hn Hjs)
      as [c' [Hc [Hjobs [_ Hphase]]]].
    exists c'. split; [exact Hc|]. split; [|exact Hphase].
    rewrite !storedJob_via_jobs, Hjobs, Hjs.
    apply getField_setField_other, Hk.
  - intro Hshape.
    destruct (UpdateStatus_stores_jobs c eventID jobName status js Hn Hjs)
      as [c' [Hc [Hjobs Hphase]]].
    + destruct Hshape as [-> | [j ->]]; exact I.
    + exists c'. split; [exact Hc|]. split; [|exact Hphase].
      rewrite !storedJob_via_jobs, Hjobs, Hjs.
      apply getField_setField_other, Hk.
Qed.

Lemma jobsStore_leaves_other_jobs_alone_witness :
  (exists c',
     Create {| collection := sampleEvents RUNNING |} "evt-1" "test" rebuildJob
     = ({| collection := c' |}, None)
     /\ storedJob c' "evt-1" "build"
        = storedJob (sampleEvents RUNNING) "evt-1" "build"
     /\ storedWorkerPhase c' "evt-1"
        = storedWorkerPhase (sampleEvents RUNNING) "evt-1")
  /\ exists c',
       UpdateStatus {| collection := sampleEvents RUNNING |}
         "evt-1" "test" runningStatus
       = ({| collection := c' |}, None)
       /\ storedJob c' "evt-1" "build"
          = storedJob (sampleEvents RUNNING) "evt-1" "build"
       /\ storedWorkerPhase c' "evt-1"
          = storedWorkerPhase (sampleEvents RUNNING) "evt-1".
Proof.
  destruct (jobsStore_leaves_other_jobs_alone (sampleEvents RUNNING)
              "evt-1" "test" "build" rebuildJob runningStatus
              [("build", marshalJob buildJob)] eq_refl eq_refl)
    as [Hc Hu]; [discriminate|].
  split; [exact Hc|]. apply Hu. left. reflexivity.
Defined.

(** ** A Job's sub-document under [Create] and [UpdateStatus] *)

(** X10.  [UpdateStatus] changes nothing of an existing Job but its status:
    every other field of the Job sub-document is kept, and the status is the
    new one. *)
Theorem UpdateStatus_changes_only_the_status
  (c : memCollection) (eventID jobName field : string) (status : JobStatus)
  (js j : document) :
  validJobName jobName = true ->
  storedJobs c eventID = Some (BDoc js) ->
  getField jobName js = Some (BDoc j) ->
  field <> "status" ->
  exists c' j',
    UpdateStatus {| collection := c |} eventID jobName status
    = ({| collection := c' |}, None)
    /\ storedJob c' eventID jobName = Some (BDoc j')
    /\ getField field j' = getField field j
    /\ getField "status" j' = Some (marshalJobStatus status).
Proof.
  intros Hn Hjs Hj Hne.
  destruct (UpdateStatus_stores c eventID jobName status js Hn Hjs)
    as [c' [Hc [_ Hjob]]].
  - rewrite Hj. exact I.
  - rewrite Hj in Hjob.
    exists c', (setField "status" (marshalJobStatus status) j).
    split; [exact Hc|]. split; [exact Hjob|]. split.
    + apply getField_setField_other. apply String.eqb_neq. exact Hne.
    + apply getField_setField_same.
Qed.

Lemma UpdateStatus_changes_only_the_status_witness :
  exists c' j',
    UpdateStatus {| collection := sampleEvents RUNNING |}
      "evt-1" "build" runningStatus
    = ({| collection := c' |}, None)
    /\ storedJob c' "evt-1" "build" = Some (BDoc j')
    /\ getField "spec" j' = Some (marshalJobSpec (Spec buildJob))
    /\ getField "status" j' = Some (marshalJobStatus runningStatus).
Proof.
  apply (UpdateStatus_changes_only_the_status (sampleEvents RUNNING)
           "evt-1" "build" "spec" runningStatus
           [("build", marshalJob buildJob)]
           [("spec", marshalJobSpec (Spec buildJob));
            ("status", marshalJobStatus succeededStatus)]);
    try reflexivity.
  discriminate.
Defined.

(** X11.  [Create] followed by [UpdateStatus] of the same Job: both answer
    nil and the stored Job is the created one with its status replaced by
    the new status. *)
Theorem Create_then_UpdateStatus
  (c : memCollection) (eventID jobName : string) (job : Job)
  (status : JobStatus) (js : document) :
  validJobName jobName = true ->
  storedJobs c eventID = Some (BDoc js) ->
  exists c1 c2,
    Create {| collection := c |} eventID jobName job
    = ({| collection := c1 |}, None)
    /\ UpdateStatus {| collection := c1 |} eventID jobName status
       = ({| collection := c2 |}, None)
    /\ storedJob c2 eventID jobName
       = Some (marshalJob {| Spec := Spec job; Status := status |}).
Proof.
  intros Hn Hjs.
  destruct (Create_stores c eventID jobName job js Hn Hjs)
    as [c1 [Hc [Hjobs _]]].
  destruct (UpdateStatus_stores c1 eventID jobName status _ Hn Hjobs)
    as [c2 [Hu [_ Hjob]]].
  - rewrite getField_setField_same. exact I.
  - exists c1, c2. split; [exact Hc|]. split; [exact Hu|].
    rewrite Hjob, getField_setField_same. reflexivity.
Qed.

Lemma Create_then_UpdateStatus_witness :
  exists c1 c2,
    Create {| collection := sampleEvents RUNNING |} "evt-0" "lint" rebuildJob
    = ({| collection := c1 |}, None)
    /\ UpdateStatus {| collection := c1 |} "evt-0" "lint" runningStatus
       = ({| collection := c2 |}, None)
    /\ storedJob c2 "evt-0" "lint"
       = Some (marshalJob {| Spec := Spec rebuildJob;
                             Status := runningStatus |}).
Proof.
  apply (Create_then_UpdateStatus (sampleEvents RUNNING) "evt-0" "lint"
           rebuildJob runningStatus []); reflexivity.
Defined.

(** ** Job names the store does not check *)

Lemma allChars_app (p : ascii -> bool) (a b : string) :
  allChars p (a ++ b) = allChars p a && allChars p b.
Proof.
  induction a as [|x a IH]; simpl; [reflexivity|].
  rewrite IH, andb_assoc. reflexivity.
Qed.

Lemma setPath_job_field (n k : string) (v : bson) (d w js j : document) :
  String.eqb n "" = false ->
  String.eqb k "" = false ->
  getField "worker" d = Some (BDoc w) ->
  getField "jobs" w = Some (BDoc js) ->
  getField n js = Some (BDoc j) ->
  setPath ["worker"; "jobs"; n; k] v d
  = Some (setField "worker"
            (BDoc (setField "jobs"
                     (BDoc (setField n (BDoc (setField k v j)) js)) w)) d).
Proof.
  intros Hn Hk Hw Hjs Hj. simpl. rewrite Hw, Hjs, Hn, Hj, Hk. reflexivity.
Qed.

Lemma setPath_empty_component (path : list string) (v : bson) :
  In "" path -> forall d, setPath path v d = None.
Proof.
  induction path as [|k rest IH]; intros Hin d; [contradiction|].
  simpl. destruct (String.eqb k "") eqn:Ek; [reflexivity|].
  destruct Hin as [-> | Hin]; [discriminate Ek|].
  destruct rest as [|k2 rest]; [contradiction|].
  destruct (getField k d) as [[| | | |sub]|]; try reflexivity.
  - rewrite (IH Hin sub). reflexivity.
  - rewrite (IH Hin []). reflexivity.
Qed.

(** X12.  The job name goes into the update path as it is.  A name made of
    two valid names joined by a dot is not a valid job name, yet [Create]
    accepts it: it answers nil, creates no Job of that name, and writes the
    new Job as a field of the existing Job named by the part before the
    dot. *)
Theorem Create_dotted_name_writes_into_another_job
  (c : memCollection) (eventID n1 n2 : string) (job : Job) (js j : document) :
  validJobName n1 = true ->
  validJobName n2 = true ->
  storedJobs c eventID = Some (BDoc js) ->
  getField n1 js = Some (BDoc j) ->
  validJobName (n1 ++ "." ++ n2) = false
  /\ exists c' js',
       Create {| collection := c |} eventID (n1 ++ "." ++ n2) job
       = ({| collection := c' |}, None)
       /\ storedJobs c' eventID = Some (BDoc js')
       /\ map fst js' = map fst js
       /\ getField n1 js' = Some (BDoc (setField n2 (marshalJob job) j)).
Proof.
  intros H1 H2 Hjs Hj. split.
  - unfold validJobName. rewrite allChars_app. simpl.
    rewrite !andb_false_r. reflexivity.
  - destruct (storedJobs_shape _ _ _ Hjs) as [d [w [Hf [Hw Hjobs]]]].
    pose proof (setPath_job_field n1 n2 (marshalJob job) d w js j
                  (validJobName_nonempty _ H1) (validJobName_nonempty _ H2)
                  Hw Hjobs Hj) as Hs.
    assert (Hpath : splitDots ("worker.jobs." ++ n1 ++ "." ++ n2)
                    = ["worker"; "jobs"; n1; n2]).
    { rewrite splitDots_worker_jobs.
      change (n1 ++ "." ++ n2) with (n1 ++ String "." n2).
      rewrite splitDots_app_dot by (apply validJobName_noDot; exact H1).
      rewrite splitDots_noDot by (apply validJobName_noDot; exact H2).
      reflexivity. }
    destruct (memUpdateOne_set_event c eventID
                ("worker.jobs." ++ n1 ++ "." ++ n2) (marshalJob job) d
                (setField "worker"
                   (BDoc (setField "jobs"
                            (BDoc (setField n1
                                     (BDoc (setField n2 (marshalJob job) j))
                                     js)) w)) d) Hf)
      as [c' [Hu Hf']].
    + rewrite Hpath. exact Hs.
    + rewrite Hpath. reflexivity.
    + unfold validPath. rewrite Hpath.
      rewrite hasNul_app, (hasNul_app n1), (validJobName_noNul _ H1). simpl.
      rewrite (validJobName_noNul _ H2).
      rewrite (validJobName_nonempty _ H1), (validJobName_nonempty _ H2).
      reflexivity.
    + exists c', (setField n1 (BDoc (setField n2 (marshalJob job) j)) js).
      split.
      * rewrite (Create_outcome (HC := memCollection_Collection)
                   {| collection := c |} eventID (n1 ++ "." ++ n2) job
                   c' (inl {| MatchedCount := 1 |}) Hu).
        reflexivity.
      * destruct (jobs_after_write d w js
                    (setField n1 (BDoc (setField n2 (marshalJob job) j)) js)
                    Hw Hjobs) as [Hafter _].
        unfold storedJobs. rewrite Hf'. split; [exact Hafter|]. split.
        -- eapply setField_keys, Hj.
        -- apply getField_setField_same.
Qed.

Lemma Create_dotted_name_writes_into_another_job_witness :
  validJobName ("build" ++ "." ++ "status") = false
  /\ exists c' js',
       Create {| collection := sampleEvents RUNNING |}
         "evt-1" ("build" ++ "." ++ "status") rebuildJob
       = ({| collection := c' |}, None)
       /\ storedJobs c' "evt-1" = Some (BDoc js')
       /\ map fst js' = map fst [("build", marshalJob buildJob)]
       /\ getField "build" js'
          = Some (BDoc (setField "status" (marshalJob rebuildJob)
                          [("spec", marshalJobSpec (Spec buildJob));
                           ("status", marshalJobStatus succeededStatus)])).
Proof.
  apply (Create_dotted_name_writes_into_another_job (sampleEvents RUNNING)
           "evt-1" "build" "status" rebuildJob
           [("build", marshalJob buildJob)]
           [("spec", marshalJobSpec (Spec buildJob));
            ("status", marshalJobStatus succeededStatus)]); reflexivity.
Defined.

(** X13.  With the empty job name the update path has an empty field name:
    on a matched Event the driver refuses the write, both methods answer the
    driver's error wrapped with the event ID and the job name, and nothing
    is stored. *)
Theorem empty_job_name_is_a_wrapped_driver_error
  (c : memCollection) (eventID : string) (job : Job) (status : JobStatus)
  (d : document) :
  findEvent c eventID = Some d ->
  Create {| collection := c |} eventID "" job
  = ({| collection := c |},
     Some (Wrapf (DriverError "write exception")
             "error updating spec of event %q job %q" [eventID; ""]))
  /\ UpdateStatus {| collection := c |} eventID "" status
     = ({| collection := c |},
        Some (Wrapf (DriverError "write exception")
                "error updating status of event %q worker job %q"
                [eventID; ""])).
Proof.
  intro Hf. split.
  - rewrite (Create_outcome (HC := memCollection_Collection)
               {| collection := c |} eventID "" job
               c (inr (DriverError "write exception"))); [reflexivity|].
    apply (memUpdateOne_write_error c _ _ d Hf).
    rewrite applyUpdate_set_one. apply setPath_empty_component.
    right; right; left. reflexivity.
  - rewrite (UpdateStatus_outcome (HC := memCollection_Collection)
               {| collection := c |} eventID "" status
               c (inr (DriverError "write exception"))); [reflexivity|].
    apply (memUpdateOne_write_error c _ _ d Hf).
    rewrite applyUpdate_set_one. apply setPath_empty_component.
    right; right; left. reflexivity.
Qed.

Lemma empty_job_name_is_a_wrapped_driver_error_witness :
  snd (Create {| collection := sampleEvents RUNNING |} "evt-1" "" buildJob)
  = Some (Wrapf (DriverError "write exception")
            "error updating spec of event %q job %q" ["evt-1"; ""])
  /\ fst (UpdateStatus {| collection := sampleEvents RUNNING |}
            "evt-1" "" runningStatus)
     = {| collection := sampleEvents RUNNING |}.
Proof.
  destruct (empty_job_name_is_a_wrapped_driver_error (sampleEvents RUNNING)
              "evt-1" buildJob runningStatus
              (eventDoc "evt-1" RUNNING [("build", buildJob)]) eq_refl)
    as [Hc Hu].
  rewrite Hc, Hu. split; reflexivity.
Defined.

(** ** The jobs mapping of a Worker *)

Lemma keys_setField (k : string) (v : bson) (d : document) (x : string) :
  In x (map fst (setField k v d)) <-> x = k \/ In x (map fst d).
Proof.
  induction d as [|[k0 v0] d IH]; simpl.
  - split;
      [intros [<- | []]; left; reflexivity
      | intros [-> | []]; left; reflexivity].
  - destruct (String.eqb k k0) eqn:E; simpl.
    + apply String.eqb_eq in E. subst k0. split.
      * intros [<- | Hin]; [left; reflexivity | right; right; exact Hin].
      * intros [-> | [<- | Hin]]; [left | left | right]; auto.
    + rewrite IH. split.
      * intros [<- | [-> | Hin]]; [right; left | left | right; right]; auto.
      * intros [-> | [<- | Hin]]; [right; left | left | right; right]; auto.
Qed.

Lemma NoDup_keys_setField (k : string) (v : bson) (d : document) :
  NoDup (map fst d) -> NoDup (map fst (setField k v d)).
Proof.
  induction d as [|[k0 v0] d IH]; simpl; intro Hnd.
  - constructor; [intros [] | constructor].
  - inversion Hnd as [|? ? Hnotin Hnd']; subst.
    destruct (String.eqb k k0) eqn:E; simpl.
    + apply String.eqb_eq in E. subst k0. constructor; assumption.
    + constructor; [|exact (IH Hnd')].
      intro Hin. apply keys_setField in Hin as [-> | Hin].
      * rewrite String.eqb_refl in E. discriminate E.
      * exact (Hnotin Hin).
Qed.

(** X14.  Writing a Job keeps the names of a Worker's Jobs unique: after a
    successful [Create] or [UpdateStatus] the names are those from before
    together with the given one, each still occurring once. *)
Theorem job_names_stay_unique
  (c : memCollection) (eventID jobName : string) (job : Job)
  (status : JobStatus) (js : document) :
  validJobName jobName = true ->
  storedJobs c eventID = Some (BDoc js) ->
  NoDup (map fst js) ->
  (exists c' js',
     Create {| collection := c |} eventID jobName job
     = ({| collection := c' |}, None)
     /\ storedJobs c' eventID = Some (BDoc js')
     /\ NoDup (map fst js')
     /\ forall x, In x (map fst js') <-> x = jobName \/ In x (map fst js))
  /\ (getField jobName js = None
      \/ (exists j, getField jobName js = Some (BDoc j)) ->
      exists c' js',
        UpdateStatus {| collection := c |} eventID jobName status
        = ({| collection := c' |}, None)
        /\ storedJobs c' eventID = Some (BDoc js')
        /\ NoDup (map fst js')
        /\ forall x, In x (map fst js') <-> x = jobName \/ In x (map fst js)).
Proof.
  intros Hn Hjs Hnd. split.
  - destruct (Create_stores c eventID jobName job js Hn Hjs)
      as [c' [Hc [Hjobs _]]].
    exists c', (setField jobName (marshalJob job) js).
    split; [exact Hc|]. split; [exact Hjobs|]. split.
    + apply NoDup_keys_setField, Hnd.
    + intro x. apply keys_setField.
  - intro Hshape.
    destruct (UpdateStatus_stores_jobs c eventID jobName status js Hn Hjs)
      as [c' [Hc [Hjobs _]]].
    + destruct Hshape as [-> | [j ->]]; exact I.
    + eexists c', _. split; [exact Hc|]. split; [exact Hjobs|]. split.
      * apply NoDup_keys_setField, Hnd.
      * intro x. apply keys_setField.
Qed.

Lemma job_names_stay_unique_witness :
  exists c' js',
    Create {| collection := sampleEvents RUNNING |} "evt-1" "test" rebuildJob
    = ({| collection := c' |}, None)
    /\ storedJobs c' "evt-1" = Some (BDoc js')
    /\ NoDup (map fst js')
    /\ forall x, In x (map fst js') <-> x = "test" \/ In x ["build"].
Proof.
  apply (job_names_stay_unique (sampleEvents RUNNING) "evt-1" "test"
           rebuildJob runningStatus [("build", marshalJob buildJob)]);
    try reflexivity.
  constructor; [intros [] | constructor].
Defined.

(** X15.  The first Job of a Worker: when the matched Event has a Worker
    without a [jobs] field, [Create] answers nil and the Worker's jobs are a
    new mapping holding the created Job alone; the Worker's phase is as
    before. *)
Theorem Create_first_job_makes_the_jobs_mapping
  (c : memCollection) (eventID jobName : string) (job : Job)
  (d w : document) :
  validJobName jobName = true ->
  findEvent c eventID = Some d ->
  getField "worker" d = Some (BDoc w) ->
  getField "jobs" w = None ->
  exists c',
    Create {| collection := c |} eventID jobName job
    = ({| collection := c' |}, None)
    /\ storedJobs c' eventID = Some (BDoc [(jobName, marshalJob job)])
    /\ storedWorkerPhase c' eventID = storedWorkerPhase c eventID.
Proof.
  intros Hn Hf Hw Hnone.
  assert (Hs : setPath ["worker"; "jobs"; jobName] (marshalJob job) d
               = Some (setField "worker"
                         (BDoc (setField "jobs"
                                  (BDoc [(jobName, marshalJob job)]) w)) d)).
  { simpl. rewrite Hw, Hnone, (validJobName_nonempty _ Hn). reflexivity. }
  destruct (Create_matched c eventID jobName job d _ Hn Hf Hs) as [c' [Hc Hf']].
  exists c'. split; [exact Hc|].
  unfold storedJobs, storedWorkerPhase. rewrite Hf', Hf. simpl.
  rewrite !getField_setField_same, Hw.
  rewrite getField_setField_other by reflexivity.
  split; reflexivity.
Qed.

Lemma Create_first_job_makes_the_jobs_mapping_witness :
  exists c',
    Create
      {| collection :=
           [[("id", BString "evt-2");
             ("worker",
              BDoc [("status", BDoc [("phase", BString "RUNNING")])])]] |}
      "evt-2" "build" buildJob
    = ({| collection := c' |}, None)
    /\ storedJobs c' "evt-2" = Some (BDoc [("build", marshalJob buildJob)])
    /\ storedWorkerPhase c' "evt-2"
       = storedWorkerPhase
           [[("id", BString "evt-2");
             ("worker",
              BDoc [("status", BDoc [("phase", BString "RUNNING")])])]]
           "evt-2".
Proof.
  apply (Create_first_job_makes_the_jobs_mapping _ "evt-2" "build" buildJob
           [("id", BString "evt-2");
            ("worker", BDoc [("status", BDoc [("phase", BString "RUNNING")])])]
           [("status", BDoc [("phase", BString "RUNNING")])]); reflexivity.
Defined.

Lemma component_roles_are_exclusive_witness :
  In (RoleWorker "evt-1") (rolesOf (namedWorker "evt-1"))
  /\ ~ In (RoleWorker "evt-1") (rolesOf (namedWorker "evt-2"))
  /\ ~ In RoleScheduler (rolesOf namedRoot).
Proof.
  split; [|split].
  - apply (proj2 (component_roles_are_exclusive (namedWorker "evt-1"))).
    reflexivity.
  - intro Hin.
    apply (proj2 (component_roles_are_exclusive (namedWorker "evt-2"))) in Hin.
    discriminate Hin.
  - intro Hin.
    apply (proj1 (component_roles_are_exclusive namedRoot)) in Hin.
    discriminate Hin.
Defined.
